(** * Actuator-disk wind turbines and wind farm (MicroHH): model and properties

    Shallow embedding of [turbine.cxx] and [windfarm.cxx].

    Modelling conventions.
    - The template parameter [TF] (float or double) and the [double] time are
      read as the real numbers [R]; comparisons are the decidable order of
      [R] turned into booleans.
    - [int] values are [Z]; no index computation of the source is taken
      modulo 2^32 (signed overflow is undefined in the source language).
    - A [std::vector] is a [list]; [operator[]] is [vget] / [vset].  The
      source leaves an access outside the vector undefined; the model reads
      [0] there and ignores the write.
    - [Grid_data] lists the members of the grid description that the two
      classes read; the flow field is the pair of vectors behind
      [fields.mp.at("u")->fld] and [fields.mp.at("v")->fld].
    - Code touching the flow field runs in a small state monad [Cmd] whose
      state carries both vectors and the log of every element access.
    - An exception is an [outcome] returned next to the object state the
      throwing call leaves behind. *)

From Stdlib Require Import String Reals ZArith List Bool Lia Lra Psatz.
Import ListNotations.
Open Scope R_scope.

(** ** Comparisons and vectors *)

Definition Rltb (a b : R) : bool := if Rlt_dec a b then true else false.
Definition Rleb (a b : R) : bool := if Rle_dec a b then true else false.
Definition Rgtb (a b : R) : bool := Rltb b a.
Definition Rgeb (a b : R) : bool := Rleb b a.

(** [for (int i=s; i<e; ++i)] visits [irange s e] from left to right. *)
Definition irange (s e : Z) : list Z :=
  map (fun n => (s + Z.of_nat n)%Z) (seq 0 (Z.to_nat (e - s))).

Definition vget {A : Type} (d : A) (arr : list A) (i : Z) : A :=
  if (i <? 0)%Z then d else nth (Z.to_nat i) arr d.

Fixpoint upd {A : Type} (arr : list A) (n : nat) (a : A) : list A :=
  match arr, n with
  | [], _ => []
  | _ :: tl, O => a :: tl
  | hd :: tl, S n' => hd :: upd tl n' a
  end.

Definition vset {A : Type} (arr : list A) (i : Z) (a : A) : list A :=
  if (i <? 0)%Z then arr else upd arr (Z.to_nat i) a.

(** [std::atan2] of the C library, over the reals. *)
Definition atan2 (y x : R) : R :=
  if Rltb 0 x then atan (y / x)
  else if Rltb x 0 then
         (if Rleb 0 y then atan (y / x) + PI else atan (y / x) - PI)
  else if Rltb 0 y then PI / 2
  else if Rltb y 0 then - (PI / 2)
  else 0.

(** ** Grid description *)

Module Grid.

Record Grid_data : Type := mkGrid {
  x : list R;  y : list R;  z : list R;
  dx : R;
  xsize : R;  ysize : R;
  istart : Z;  iend : Z;
  jstart : Z;  jend : Z;
  kstart : Z;  kend : Z;
  jstride : Z; kstride : Z
}.

End Grid.

Definition Grid_data : Type := Grid.Grid_data.

(** ** The flow field and the command monad *)

Inductive comp : Type := U | V.

Inductive access : Type :=
| Load  (c : comp) (idx : Z)
| Store (c : comp) (idx : Z).

Definition access_index (a : access) : Z :=
  match a with Load _ i => i | Store _ i => i end.

Definition is_store (a : access) : bool :=
  match a with Load _ _ => false | Store _ _ => true end.

Record Flow : Type := mkFlow {
  fld_u : list R;
  fld_v : list R;
  trace : list access   (* most recent access first *)
}.

Definition fld (c : comp) (s : Flow) : list R :=
  match c with U => fld_u s | V => fld_v s end.

Definition Cmd (A : Type) : Type := Flow -> A * Flow.

Definition ret {A : Type} (a : A) : Cmd A := fun s => (a, s).

Definition bind {A B : Type} (m : Cmd A) (k : A -> Cmd B) : Cmd B :=
  fun s => let (a, s') := m s in k a s'.

Notation "v <- m ;; k" := (bind m (fun v => k))
  (at level 61, m at next level, right associativity).
Notation "m ;;; k" := (bind m (fun _ => k))
  (at level 61, right associativity).

Definition load (c : comp) (idx : Z) : Cmd R :=
  fun s => (vget 0 (fld c s) idx,
            mkFlow (fld_u s) (fld_v s) (Load c idx :: trace s)).

Definition store (c : comp) (idx : Z) (val : R) : Cmd unit :=
  fun s => (tt,
            match c with
            | U => mkFlow (vset (fld_u s) idx val) (fld_v s)
                          (Store c idx :: trace s)
            | V => mkFlow (fld_u s) (vset (fld_v s) idx val)
                          (Store c idx :: trace s)
            end).

(** A counted loop carrying an accumulator. *)
Fixpoint for_each {I A : Type} (l : list I) (body : I -> A -> Cmd A) (acc : A)
  : Cmd A :=
  match l with
  | [] => ret acc
  | n :: l' => acc' <- body n acc ;; for_each l' body acc'
  end.

(** ** Turbine *)

Module Turbine.

(** The values [Input::get_item] yields for section [turbine]. *)
Record Input : Type := mkInput {
  in_diam : R; in_hhub : R; in_ct : R; in_cp : R; in_tsr : R;
  in_swdynyaw : bool; in_yawperiod : R; in_turbstarttime : R;
  in_swturbstats : bool; in_turbstatperiod : R
}.

Record t : Type := mk {
  diam : R; hhub : R; ct : R; cp : R; tsr : R;
  swdynyaw : bool; yawperiod : R; turbstarttime : R;
  swturbstats : bool; turbstatperiod : R;
  xpos : R; ypos : R; yaw : R; next_yaw : R; area : R;
  k_hub : Z;
  indices : list Z; weights : list R;
  power : R
}.

Definition M_PI : R := PI.

(** Constructor.  [indices] and [weights] start as empty vectors.  The
    constructor leaves the [int] member [k_hub] uninitialised; the record
    holds 0 in its place until [create] sets it, and no property below
    depends on that value. *)
Definition new (input : Input) (xin yin hhub_in : R) : t :=
  {| diam := in_diam input;
     hhub := if Rgtb hhub_in 0 then hhub_in else in_hhub input;
     ct := in_ct input; cp := in_cp input; tsr := in_tsr input;
     swdynyaw := in_swdynyaw input; yawperiod := in_yawperiod input;
     turbstarttime := in_turbstarttime input;
     swturbstats := in_swturbstats input;
     turbstatperiod := in_turbstatperiod input;
     xpos := xin; ypos := yin; yaw := 0;
     next_yaw := in_turbstarttime input;
     area := M_PI * in_diam input * in_diam input * 0.25;
     k_hub := 0%Z; indices := []; weights := [];
     power := 0 |}.

Definition set_footprint (self : t) (k : Z) (idxs : list Z) (ws : list R) : t :=
  {| diam := diam self; hhub := hhub self; ct := ct self; cp := cp self;
     tsr := tsr self; swdynyaw := swdynyaw self; yawperiod := yawperiod self;
     turbstarttime := turbstarttime self; swturbstats := swturbstats self;
     turbstatperiod := turbstatperiod self;
     xpos := xpos self; ypos := ypos self; yaw := yaw self;
     next_yaw := next_yaw self; area := area self;
     k_hub := k; indices := idxs; weights := ws;
     power := power self |}.

Definition set_yaw (self : t) (yaw' next_yaw' : R) : t :=
  {| diam := diam self; hhub := hhub self; ct := ct self; cp := cp self;
     tsr := tsr self; swdynyaw := swdynyaw self; yawperiod := yawperiod self;
     turbstarttime := turbstarttime self; swturbstats := swturbstats self;
     turbstatperiod := turbstatperiod self;
     xpos := xpos self; ypos := ypos self; yaw := yaw';
     next_yaw := next_yaw'; area := area self;
     k_hub := k_hub self; indices := indices self; weights := weights self;
     power := power self |}.

Definition set_power (self : t) (p : R) : t :=
  {| diam := diam self; hhub := hhub self; ct := ct self; cp := cp self;
     tsr := tsr self; swdynyaw := swdynyaw self; yawperiod := yawperiod self;
     turbstarttime := turbstarttime self; swturbstats := swturbstats self;
     turbstatperiod := turbstatperiod self;
     xpos := xpos self; ypos := ypos self; yaw := yaw self;
     next_yaw := next_yaw self; area := area self;
     k_hub := k_hub self; indices := indices self; weights := weights self;
     power := p |}.

Definition get_power (self : t) : R := power self.

(** *** [create]: hub level and disk footprint *)

(** One iteration of the scan for the level closest to the hub height. *)
Definition hub_step (gd : Grid_data) (hh : R) (st : Z * R) (k : Z) : Z * R :=
  let '(k_hub, minz) := st in
  let diff := Rabs (vget 0 (Grid.z gd) k - hh) in
  if Rltb diff minz then (k, diff) else (k_hub, minz).

Definition hub_scan (gd : Grid_data) (hh : R) : Z :=
  fst (fold_left (hub_step gd hh)
         (irange (Grid.kstart gd + 1) (Grid.kend gd))
         (Grid.kstart gd, Rabs (vget 0 (Grid.z gd) (Grid.kstart gd) - hh))).

Definition cell_r2 (gd : Grid_data) (self : t) (i j : Z) : R :=
  let dx := vget 0 (Grid.x gd) i - xpos self in
  let dy := vget 0 (Grid.y gd) j - ypos self in
  dx * dx + dy * dy.

Definition radius (self : t) : R := diam self * 0.5.

Definition Delta (gd : Grid_data) : R := 1.5 * Grid.dx gd.

(** Body of the inner loop: the pair of vectors, after the possible
    [push_back]s. *)
Definition cell_step (gd : Grid_data) (self : t) (khub j : Z)
    (st : list Z * list R) (i : Z) : list Z * list R :=
  let '(idxs, ws) := st in
  let r2 := cell_r2 gd self i j in
  if Rleb (sqrt r2) (radius self) then
    (idxs ++ [(i + j * Grid.jstride gd + khub * Grid.kstride gd)%Z],
     ws ++ [exp (-6 * r2 / (Delta gd * Delta gd))])
  else (idxs, ws).

Definition row_step (gd : Grid_data) (self : t) (khub : Z)
    (st : list Z * list R) (j : Z) : list Z * list R :=
  fold_left (cell_step gd self khub j)
    (irange (Grid.istart gd) (Grid.iend gd)) st.

Definition cover (gd : Grid_data) (self : t) (khub : Z) : list Z * list R :=
  fold_left (row_step gd self khub)
    (irange (Grid.jstart gd) (Grid.jend gd)) ([], []).

(** [std::accumulate(first, last, init)]. *)
Definition accumulate (ws : list R) (init : R) : R := fold_left Rplus ws init.

Definition normalise (ws : list R) : list R :=
  let wsum := accumulate ws 0 in
  if Rgtb wsum 0 then map (fun w => w / wsum) ws else ws.

Definition create (gd : Grid_data) (self : t) : t :=
  let khub := hub_scan gd (hhub self) in
  let '(idxs, ws) := cover gd self khub in
  set_footprint self khub idxs (normalise ws).

(** *** [exec]: yaw control, thrust, power and forcing *)

Definition nearest_step (val : R) (arr : list R) (st : Z * R) (i : Z) : Z * R :=
  let '(idx, md) := st in
  let d := Rabs (vget 0 arr i - val) in
  if Rltb d md then (i, d) else (idx, md).

Definition nearest_index (val : R) (arr : list R) (s e : Z) : Z :=
  fst (fold_left (nearest_step val arr) (irange (s + 1) e)
         (s, Rabs (vget 0 arr s - val))).

(** Flattened index of the cell sampled for the yaw controller. *)
Definition upstream_index (gd : Grid_data) (self : t) : Z :=
  let xref := xpos self - diam self * cos (yaw self) in
  let yref := ypos self - diam self * sin (yaw self) in
  let iu := nearest_index xref (Grid.x gd) (Grid.istart gd) (Grid.iend gd) in
  let ju := nearest_index yref (Grid.y gd) (Grid.jstart gd) (Grid.jend gd) in
  (iu + ju * Grid.jstride gd + k_hub self * Grid.kstride gd)%Z.

Definition yaw_due (self : t) (time : R) : bool :=
  swdynyaw self && Rgeb time (next_yaw self).

Definition update_yaw (gd : Grid_data) (self : t) (time : R) : Cmd t :=
  if yaw_due self time then
    let idx := upstream_index gd self in
    ur <- load U idx ;;
    vr <- load V idx ;;
    let target := atan2 vr ur in
    ret (set_yaw self (yaw self + (target - yaw self) * 0.2)
                      (next_yaw self + yawperiod self))
  else ret self.

Definition mean_body (self : t) (n : nat) (umean : R) : Cmd R :=
  let idx := nth n (indices self) 0%Z in
  uu <- load U idx ;;
  vv <- load V idx ;;
  ret (umean + nth n (weights self) 0
               * (uu * cos (yaw self) + vv * sin (yaw self))).

Definition force_body (self : t) (thrust : R) (n : nat) (_ : unit) : Cmd unit :=
  let idx := nth n (indices self) 0%Z in
  let f := thrust * nth n (weights self) 0 in
  uo <- load U idx ;;
  store U idx (uo - f * cos (yaw self)) ;;;
  vo <- load V idx ;;
  store V idx (vo - f * sin (yaw self)).

Definition thrust_of (self : t) (umean : R) : R :=
  0.5 * ct self * umean * Rabs umean.

Definition power_of (self : t) (umean : R) : R :=
  cp self * 0.5 * umean * umean * umean * area self.

(** Everything [exec] does once the start-time test has let the call pass. *)
Definition step (gd : Grid_data) (self : t) (time : R) : Cmd t :=
  self1 <- update_yaw gd self time ;;
  let cells := seq 0 (length (indices self1)) in
  umean <- for_each cells (mean_body self1) 0 ;;
  let thrust := thrust_of self1 umean in
  let self2 := set_power self1 (power_of self1 umean) in
  for_each cells (force_body self2 thrust) tt ;;;
  ret self2.

Definition exec (gd : Grid_data) (self : t) (time : R) : Cmd t :=
  if Rltb time (turbstarttime self) then ret self
  else step gd self time.

End Turbine.

(** ** Wind farm *)

(** What a call leaves behind besides the object state: normal completion, or
    a [std::runtime_error] carrying [what]. *)
Inductive outcome : Type :=
| Done
| Raised (what : string).

(** A loop whose body may throw: the first exception ends the loop. *)
Fixpoint try_each {I S : Type} (l : list I) (body : I -> S -> S * outcome)
    (s : S) : S * outcome :=
  match l with
  | [] => (s, Done)
  | a :: l' =>
      match body a s with
      | (s', Done) => try_each l' body s'
      | (s', Raised what) => (s', Raised what)
      end
  end.

Module Windfarm.

(** The values [Input::get_item] yields for section [windfarm]. *)
Record Input : Type := mkInput {
  in_nturbrows : Z; in_nturbcols : Z;
  in_spacingx : R; in_spacingy : R;
  in_swstaggered : bool;
  in_farmlocx : R; in_farmlocy : R;
  in_layoutfile : string
}.

Record t : Type := mk {
  input : Turbine.Input;          (* the [Input&] handed on to each turbine *)
  nturbrows : Z; nturbcols : Z;
  spacingx : R; spacingy : R;
  swstaggered : bool;
  farmlocx : R; farmlocy : R;
  layoutfile : string;
  diam : R;
  farm_power : R;
  turbines : list Turbine.t
}.

Definition new (tin : Turbine.Input) (win : Input) : t :=
  {| input := tin;
     nturbrows := in_nturbrows win; nturbcols := in_nturbcols win;
     spacingx := in_spacingx win; spacingy := in_spacingy win;
     swstaggered := in_swstaggered win;
     farmlocx := in_farmlocx win; farmlocy := in_farmlocy win;
     layoutfile := in_layoutfile win;
     diam := Turbine.in_diam tin;
     farm_power := 0;
     turbines := [] |}.

Definition set_turbines (self : t) (ts : list Turbine.t) : t :=
  {| input := input self;
     nturbrows := nturbrows self; nturbcols := nturbcols self;
     spacingx := spacingx self; spacingy := spacingy self;
     swstaggered := swstaggered self;
     farmlocx := farmlocx self; farmlocy := farmlocy self;
     layoutfile := layoutfile self;
     diam := diam self;
     farm_power := farm_power self;
     turbines := ts |}.

Definition set_farm_power (self : t) (p : R) : t :=
  {| input := input self;
     nturbrows := nturbrows self; nturbcols := nturbcols self;
     spacingx := spacingx self; spacingy := spacingy self;
     swstaggered := swstaggered self;
     farmlocx := farmlocx self; farmlocy := farmlocy self;
     layoutfile := layoutfile self;
     diam := diam self;
     farm_power := p;
     turbines := turbines self |}.

Definition get_farm_power (self : t) : R := farm_power self.

(** The layout files that exist: [None] when [std::ifstream] cannot open the
    path, otherwise the triples [f >> x >> y >> hh] extracts, in order, before
    the first extraction that fails. *)
Definition Files : Type := string -> option (list (R * R * R)).

(** The test at the head of the lambda [add_turb]. *)
Definition near_boundary (gd : Grid_data) (self : t) (x y : R) : bool :=
  Rltb (x - 0.5 * diam self) 0 || Rgtb (x + 0.5 * diam self) (Grid.xsize gd) ||
  Rltb (y - 0.5 * diam self) 0 || Rgtb (y + 0.5 * diam self) (Grid.ysize gd).

Definition add_turb (gd : Grid_data) (x y hh : R) (self : t) : t * outcome :=
  if near_boundary gd self x y then (self, Raised "Turbine near boundary")
  else
    (set_turbines self
       (turbines self ++ [Turbine.create gd (Turbine.new (input self) x y hh)]),
     Done).

Definition stagger_offset (self : t) (r : Z) : R :=
  if swstaggered self && (Z.rem r 2 =? 1)%Z
  then 0.5 * spacingx self * diam self else 0.

Definition col_body (gd : Grid_data) (r : Z) (y : R) (c : Z) (self : t)
  : t * outcome :=
  let offset := stagger_offset self r in
  let x := farmlocx self + IZR c * spacingx self * diam self + offset in
  add_turb gd x y (-1) self.

Definition row_body (gd : Grid_data) (r : Z) (self : t) : t * outcome :=
  let y := farmlocy self + IZR r * spacingy self * diam self in
  try_each (irange 0 (nturbcols self)) (col_body gd r y) self.

Definition create (gd : Grid_data) (files : Files) (self : t) : t * outcome :=
  let self := set_turbines self [] in
  if negb (layoutfile self =? EmptyString)%string then
    match files (layoutfile self) with
    | None =>
        (self, Raised ("Cannot open layout file " ++ layoutfile self)%string)
    | Some rows =>
        try_each rows (fun '(x, y, hh) => add_turb gd x y hh) self
    end
  else
    try_each (irange 0 (nturbrows self)) (row_body gd) self.

(** The loop of [exec]: each turbine is stepped in place and its power added
    to the accumulator. *)
Fixpoint exec_loop (gd : Grid_data) (time : R) (ts : list Turbine.t)
    (acc : R) : Cmd (list Turbine.t * R) :=
  match ts with
  | [] => ret ([], acc)
  | t0 :: rest =>
      t1 <- Turbine.exec gd t0 time ;;
      r <- exec_loop gd time rest (acc + Turbine.get_power t1) ;;
      ret (t1 :: fst r, snd r)
  end.

Definition exec (gd : Grid_data) (self : t) (time : R) : Cmd t :=
  let self := set_farm_power self 0 in
  r <- exec_loop gd time (turbines self) (farm_power self) ;;
  ret (set_farm_power (set_turbines self (fst r)) (snd r)).

End Windfarm.

(** ** Vocabulary of the properties *)

(** Sum of [f 0 .. f (n-1)]. *)
Fixpoint big_sum (f : nat -> R) (n : nat) : R :=
  match n with
  | O => 0
  | S n' => big_sum f n' + f n'
  end.

(** The centre of column [i], row [j] lies within the rotor radius. *)
Definition in_disk (gd : Grid_data) (self : Turbine.t) (i j : Z) : Prop :=
  sqrt (Turbine.cell_r2 gd self i j) <= Turbine.radius self.

Definition in_diskb (gd : Grid_data) (self : Turbine.t) (i j : Z) : bool :=
  Rleb (sqrt (Turbine.cell_r2 gd self i j)) (Turbine.radius self).

(** All horizontal cells, row by row, and those inside the disk. *)
Definition grid_cells (gd : Grid_data) : list (Z * Z) :=
  flat_map (fun j => map (fun i => (i, j))
                         (irange (Grid.istart gd) (Grid.iend gd)))
           (irange (Grid.jstart gd) (Grid.jend gd)).

Definition disk_cells (gd : Grid_data) (self : Turbine.t) : list (Z * Z) :=
  filter (fun c => in_diskb gd self (fst c) (snd c)) (grid_cells gd).

Definition flat_index (gd : Grid_data) (k : Z) (c : Z * Z) : Z :=
  (fst c + snd c * Grid.jstride gd + k * Grid.kstride gd)%Z.

(** Unnormalised Gaussian weight exp(-6 r^2 / Delta^2), Delta = 1.5 dx. *)
Definition gauss (gd : Grid_data) (self : Turbine.t) (c : Z * Z) : R :=
  let D := 1.5 * Grid.dx gd in
  exp (- 6 * Turbine.cell_r2 gd self (fst c) (snd c) / (D * D)).

(** Total of a vector. *)
Definition sum_list (l : list R) : R := fold_right Rplus 0 l.

(** The footprint in the words of the specification, written out without
    the functions of [create]: squared horizontal distance of the centre of
    cell [c = (i, j)] to the turbine, the test "within the rotor radius" with
    the radius as half the diameter, the unnormalised weight
    exp(-6 r^2 / Delta^2) with Delta = 1.5 dx, and the cells that pass the
    test, in scan order. *)
Definition disk_distance2 (gd : Grid_data) (self : Turbine.t) (c : Z * Z) : R :=
  (vget 0 (Grid.x gd) (fst c) - Turbine.xpos self) ^ 2
  + (vget 0 (Grid.y gd) (snd c) - Turbine.ypos self) ^ 2.

Definition within_rotor_radius (gd : Grid_data) (self : Turbine.t)
    (c : Z * Z) : Prop :=
  sqrt (disk_distance2 gd self c) <= Turbine.diam self / 2.

Definition within_rotor_radiusb (gd : Grid_data) (self : Turbine.t)
    (c : Z * Z) : bool :=
  Rleb (sqrt (disk_distance2 gd self c)) (Turbine.diam self / 2).

Definition gaussian_weight (gd : Grid_data) (self : Turbine.t) (c : Z * Z) : R :=
  exp (- 6 * disk_distance2 gd self c / (1.5 * Grid.dx gd) ^ 2).

Definition covered_cells (gd : Grid_data) (self : Turbine.t) : list (Z * Z) :=
  filter (within_rotor_radiusb gd self) (grid_cells gd).

(** The disk of a candidate at [(x, y)] crosses an edge of the domain. *)
Definition crosses (gd : Grid_data) (d x y : R) : Prop :=
  x - 0.5 * d < 0 \/ x + 0.5 * d > Grid.xsize gd \/
  y - 0.5 * d < 0 \/ y + 0.5 * d > Grid.ysize gd.

(** The disk touches an edge of the domain. *)
Definition tangent (gd : Grid_data) (d x y : R) : Prop :=
  x - 0.5 * d = 0 \/ x + 0.5 * d = Grid.xsize gd \/
  y - 0.5 * d = 0 \/ y + 0.5 * d = Grid.ysize gd.

Definition cand_crosses (gd : Grid_data) (d : R) (c : R * R * R) : Prop :=
  crosses gd d (fst (fst c)) (snd (fst c)).

(** The turbine a candidate becomes once accepted. *)
Definition make (gd : Grid_data) (self : Windfarm.t) (c : R * R * R)
  : Turbine.t :=
  Turbine.create gd
    (Turbine.new (Windfarm.input self) (fst (fst c)) (snd (fst c)) (snd c)).

(** Position of row [r], column [c] of the regular layout. *)
Definition layout_x (self : Windfarm.t) (r c : Z) : R :=
  Windfarm.farmlocx self + IZR c * Windfarm.spacingx self * Windfarm.diam self
  + (if Windfarm.swstaggered self && Z.odd r
     then 0.5 * Windfarm.spacingx self * Windfarm.diam self else 0).

Definition layout_y (self : Windfarm.t) (r : Z) : R :=
  Windfarm.farmlocy self + IZR r * Windfarm.spacingy self * Windfarm.diam self.

Definition regular_layout (self : Windfarm.t) : list (R * R * R) :=
  flat_map (fun r => map (fun c => (layout_x self r c, layout_y self r, -1))
                         (irange 0 (Windfarm.nturbcols self)))
           (irange 0 (Windfarm.nturbrows self)).

Definition file_mode (self : Windfarm.t) : Prop :=
  Windfarm.layoutfile self <> EmptyString.

Definition unreadable (files : Windfarm.Files) (self : Windfarm.t) : Prop :=
  file_mode self /\ files (Windfarm.layoutfile self) = None.

(** The positions [create] goes through, in order. *)
Definition candidates (files : Windfarm.Files) (self : Windfarm.t)
  : list (R * R * R) :=
  if (Windfarm.layoutfile self =? EmptyString)%string then regular_layout self
  else match files (Windfarm.layoutfile self) with
       | Some rows => rows
       | None => []
       end.

(** The turbines of a farm stepped one after the other on the same field. *)
Inductive stepped (gd : Grid_data) (time : R)
  : list Turbine.t -> Flow -> list Turbine.t -> Flow -> Prop :=
| stepped_nil : forall s, stepped gd time [] s [] s
| stepped_cons : forall t0 ts t1 ts' s s1 s2,
    Turbine.exec gd t0 time s = (t1, s1) ->
    stepped gd time ts s1 ts' s2 ->
    stepped gd time (t0 :: ts) s (t1 :: ts') s2.

(** Adding one candidate read as a triple. *)
Definition add_cand (gd : Grid_data) (c : R * R * R)
  : Windfarm.t -> Windfarm.t * outcome :=
  let '(x, y, hh) := c in Windfarm.add_turb gd x y hh.

(** Two farm objects that differ in their turbine collection only. *)
Definition same_config (a b : Windfarm.t) : Prop :=
  Windfarm.set_turbines a [] = Windfarm.set_turbines b [].


(** ** Concrete configurations used by the examples *)

(** Four cells of width 1 in x, one row, one level. *)
Definition gd_line : Grid_data :=
  {| Grid.x := [0.5; 1.5; 2.5; 3.5]; Grid.y := [0.5]; Grid.z := [0.5];
     Grid.dx := 1; Grid.xsize := 4; Grid.ysize := 1;
     Grid.istart := 0; Grid.iend := 4;
     Grid.jstart := 0; Grid.jend := 1;
     Grid.kstart := 0; Grid.kend := 1;
     Grid.jstride := 4; Grid.kstride := 4 |}.

Definition tin_unit (dynyaw : bool) (start : R) : Turbine.Input :=
  {| Turbine.in_diam := 1; Turbine.in_hhub := 0.5;
     Turbine.in_ct := 0.75; Turbine.in_cp := 0.5; Turbine.in_tsr := 8;
     Turbine.in_swdynyaw := dynyaw; Turbine.in_yawperiod := 10;
     Turbine.in_turbstarttime := start;
     Turbine.in_swturbstats := false; Turbine.in_turbstatperiod := 0 |}.

(** The same turbine with three times the diameter. *)
Definition tin_wide : Turbine.Input :=
  {| Turbine.in_diam := 3; Turbine.in_hhub := 0.5;
     Turbine.in_ct := 0.75; Turbine.in_cp := 0.5; Turbine.in_tsr := 8;
     Turbine.in_swdynyaw := false; Turbine.in_yawperiod := 10;
     Turbine.in_turbstarttime := 0;
     Turbine.in_swturbstats := false; Turbine.in_turbstatperiod := 0 |}.

Definition win_regular (rows cols : Z) (x0 : R) (stag : bool) : Windfarm.Input :=
  {| Windfarm.in_nturbrows := rows; Windfarm.in_nturbcols := cols;
     Windfarm.in_spacingx := 1; Windfarm.in_spacingy := 0;
     Windfarm.in_swstaggered := stag;
     Windfarm.in_farmlocx := x0; Windfarm.in_farmlocy := 0.5;
     Windfarm.in_layoutfile := EmptyString |}.

Definition no_files : Windfarm.Files := fun _ => None.

Definition farm_regular (rows cols : Z) (x0 : R) : Windfarm.t :=
  Windfarm.new (tin_unit false 0) (win_regular rows cols x0 false).

(** ** Vocabulary of the turbine step *)

(** The turbine objects the program can hold. *)
Inductive reachable (gd : Grid_data) : Turbine.t -> Prop :=
| reach_new : forall input xin yin hhub_in,
    reachable gd (Turbine.new input xin yin hhub_in)
| reach_create : forall self,
    reachable gd self -> reachable gd (Turbine.create gd self)
| reach_exec : forall self time s,
    reachable gd self -> reachable gd (fst (Turbine.exec gd self time s)).

(** Term [n] of the disk average: weight times the velocity along the yaw. *)
Definition disk_term (self : Turbine.t) (s : Flow) (n : nat) : R :=
  let idx := nth n (Turbine.indices self) 0%Z in
  nth n (Turbine.weights self) 0
  * (vget 0 (fld_u s) idx * cos (Turbine.yaw self)
     + vget 0 (fld_v s) idx * sin (Turbine.yaw self)).

Definition disk_velocity (self : Turbine.t) (s : Flow) : R :=
  big_sum (disk_term self s) (length (Turbine.indices self)).

(** Total of [thrust * weight[n] * dir] over the footprint entries that
    point at element [p]. *)
Definition increment (self : Turbine.t) (thrust dir : R) (p : Z) : R :=
  big_sum (fun n => if (nth n (Turbine.indices self) 0 =? p)%Z
                    then thrust * nth n (Turbine.weights self) 0 * dir
                    else 0)
          (length (Turbine.indices self)).

(** [i] is the first index of [s, e) whose entry is closest to [val]. *)
Definition nearest_in (val : R) (arr : list R) (s e i : Z) : Prop :=
  (s <= i < e)%Z /\
  (forall k, (s <= k < e)%Z ->
             Rabs (vget 0 arr i - val) <= Rabs (vget 0 arr k - val)) /\
  (forall k, (s <= k < i)%Z ->
             Rabs (vget 0 arr i - val) < Rabs (vget 0 arr k - val)).

(** State of the nearest-entry scan after the indices of [s, m). *)
Definition scanned (val : R) (arr : list R) (s m : Z) (st : Z * R) : Prop :=
  snd st = Rabs (vget 0 arr (fst st) - val) /\
  nearest_in val arr s m (fst st).

(** A turbine of diameter 1 at (2.5, 0.5) on the four-cell line, set up by
    [create], and a uniform flow along x. *)
Definition turb_line (dynyaw : bool) (start : R) : Turbine.t :=
  Turbine.create gd_line (Turbine.new (tin_unit dynyaw start) 2.5 0.5 (-1)).

Definition flow_line : Flow :=
  {| fld_u := [8; 8; 8; 8]; fld_v := [0; 0; 0; 0]; trace := [] |}.

(** ** Vocabulary of the further properties *)

(** The scanned index box is not empty and lies inside the flattened array:
    columns within a row, rows within a level, levels from 0. *)
Definition box_in_array (gd : Grid_data) : Prop :=
  (0 <= Grid.istart gd < Grid.iend gd)%Z /\
  (Grid.iend gd <= Grid.jstride gd)%Z /\
  (0 <= Grid.jstart gd < Grid.jend gd)%Z /\
  (Grid.jend gd * Grid.jstride gd <= Grid.kstride gd)%Z /\
  (0 <= Grid.kstart gd < Grid.kend gd)%Z.

(** A flattened index below the end of the last scanned level. *)
Definition in_array (gd : Grid_data) (idx : Z) : Prop :=
  (0 <= idx < Grid.kend gd * Grid.kstride gd)%Z.

(** The disk of diameter [d] centred at [(x, y)] lies within the domain. *)
Definition inside_domain (gd : Grid_data) (d x y : R) : Prop :=
  0 <= x - 0.5 * d /\ x + 0.5 * d <= Grid.xsize gd /\
  0 <= y - 0.5 * d /\ y + 0.5 * d <= Grid.ysize gd.

(** A layout file holding the two lines [2.5 0.5 80] and [1.5 0.5 -1]. *)
Definition two_line_file : Windfarm.Files :=
  fun path => if (path =? "layout.txt")%string
              then Some [(2.5, 0.5, 80); (1.5, 0.5, -1)] else None.

Definition farm_from_file : Windfarm.t :=
  Windfarm.new (tin_unit false 0)
    {| Windfarm.in_nturbrows := 1; Windfarm.in_nturbcols := 1;
       Windfarm.in_spacingx := 0; Windfarm.in_spacingy := 0;
       Windfarm.in_swstaggered := false;
       Windfarm.in_farmlocx := 0; Windfarm.in_farmlocy := 0;
       Windfarm.in_layoutfile := "layout.txt" |}.

(** The elements whose value a step of [self] at [time] depends on: the
    footprint and, when the yaw update runs, the upstream sample. *)
Definition reads (gd : Grid_data) (self : Turbine.t) (time : R) : list Z :=
  (if Turbine.yaw_due self time then [Turbine.upstream_index gd self] else [])
  ++ Turbine.indices self.

(** Two flow fields with the same u and v at the listed elements. *)
Definition agree (l : list Z) (s s' : Flow) : Prop :=
  forall p, In p l ->
    vget 0 (fld_u s) p = vget 0 (fld_u s') p /\
    vget 0 (fld_v s) p = vget 0 (fld_v s') p.

(** What a call of [exec] takes from element [p] of a component; [dir] is
    [cos] for u and [sin] for v. *)
Definition sink (gd : Grid_data) (self : Turbine.t) (time : R) (s : Flow)
    (dir : R -> R) (p : Z) : R :=
  if Rltb time (Turbine.turbstarttime self) then 0
  else
    let self1 := fst (Turbine.update_yaw gd self time s) in
    increment self1 (Turbine.thrust_of self1 (disk_velocity self1 s))
              (dir (Turbine.yaw self1)) p.

(** A second turbine of diameter 1 on the four-cell line, at (0.5, 0.5). *)
Definition turb_left : Turbine.t :=
  Turbine.create gd_line (Turbine.new (tin_unit false 0) 0.5 0.5 (-1)).

(** The turbine objects on which [create] has run, as in the farm, where
    every turbine is created right after its construction and stepped only
    afterwards. *)
Inductive set_up (gd : Grid_data) : Turbine.t -> Prop :=
| set_up_create : forall self, set_up gd (Turbine.create gd self)
| set_up_exec : forall self time s,
    set_up gd self -> set_up gd (fst (Turbine.exec gd self time s)).

(** * Properties *)

(** ** Comparisons *)

Lemma Rltb_true (a b : R) : a < b -> Rltb a b = true.
Proof. intros H; unfold Rltb; destruct (Rlt_dec a b); [reflexivity | contradiction]. Qed.

Lemma Rltb_false (a b : R) : ~ a < b -> Rltb a b = false.
Proof. intros H; unfold Rltb; destruct (Rlt_dec a b); [contradiction | reflexivity]. Qed.

Lemma Rleb_true (a b : R) : a <= b -> Rleb a b = true.
Proof. intros H; unfold Rleb; destruct (Rle_dec a b); [reflexivity | contradiction]. Qed.

Lemma Rleb_false (a b : R) : ~ a <= b -> Rleb a b = false.
Proof. intros H; unfold Rleb; destruct (Rle_dec a b); [contradiction | reflexivity]. Qed.

Lemma Rltb_iff (a b : R) : Rltb a b = true <-> a < b.
Proof.
  unfold Rltb; destruct (Rlt_dec a b); split; intros; try easy.
Qed.

Lemma Rleb_iff (a b : R) : Rleb a b = true <-> a <= b.
Proof.
  unfold Rleb; destruct (Rle_dec a b); split; intros; try easy.
Qed.

(** Settles every comparison between closed real expressions in the goal. *)
Ltac rcompare :=
  repeat match goal with
  | |- context [Rltb ?a ?b] =>
      first [ rewrite (Rltb_true a b) by lra | rewrite (Rltb_false a b) by lra ]
  | |- context [Rleb ?a ?b] =>
      first [ rewrite (Rleb_true a b) by lra | rewrite (Rleb_false a b) by lra ]
  end.

(** ** Ranges *)

Lemma irange_length (s e : Z) : length (irange s e) = Z.to_nat (e - s).
Proof. unfold irange. now rewrite length_map, length_seq. Qed.

Lemma irange_In (s e i : Z) : In i (irange s e) <-> (s <= i < e)%Z.
Proof.
  unfold irange. rewrite in_map_iff. split.
  - intros (n & <- & Hn). apply in_seq in Hn. lia.
  - intros H. exists (Z.to_nat (i - s)). split; [lia |].
    apply in_seq. lia.
Qed.

Lemma irange_nil (s e : Z) : (e <= s)%Z -> irange s e = [].
Proof.
  intros H. unfold irange. replace (Z.to_nat (e - s)) with O by lia. reflexivity.
Qed.

Lemma irange_cons (s e : Z) : (s < e)%Z -> irange s e = s :: irange (s + 1) e.
Proof.
  intros H. unfold irange.
  replace (Z.to_nat (e - s)) with (S (Z.to_nat (e - (s + 1)))) by lia.
  simpl. f_equal; [lia |].
  rewrite <- seq_shift, map_map. apply map_ext. intros n. lia.
Qed.

(** ** Loops that may throw *)

Lemma try_each_app {I S : Type} (l1 l2 : list I) (body : I -> S -> S * outcome)
    (s : S) :
  try_each (l1 ++ l2) body s =
  match try_each l1 body s with
  | (s', Done) => try_each l2 body s'
  | (s', Raised what) => (s', Raised what)
  end.
Proof.
  revert s; induction l1 as [|a l1 IH]; intros s; simpl; [reflexivity |].
  destruct (body a s) as [s' [|what]]; [apply IH | reflexivity].
Qed.

Lemma try_each_map {I J S : Type} (f : I -> J) (l : list I)
    (body : J -> S -> S * outcome) (s : S) :
  try_each (map f l) body s = try_each l (fun a => body (f a)) s.
Proof.
  revert s; induction l as [|a l IH]; intros s; simpl; [reflexivity |].
  destruct (body (f a) s) as [s' [|what]]; [apply IH | reflexivity].
Qed.

Lemma try_each_flat_map {I J S : Type} (g : I -> list J) (l : list I)
    (body : J -> S -> S * outcome) (s : S) :
  try_each (flat_map g l) body s =
  try_each l (fun a s0 => try_each (g a) body s0) s.
Proof.
  revert s; induction l as [|a l IH]; intros s; simpl; [reflexivity |].
  rewrite try_each_app.
  destruct (try_each (g a) body s) as [s' [|what]]; [apply IH | reflexivity].
Qed.

(** Two bodies that agree on the states satisfying an invariant give the same
    loop from such a state. *)
Lemma try_each_agree {I S : Type} (P : S -> Prop) (l : list I)
    (body1 body2 : I -> S -> S * outcome) (s : S) :
  P s ->
  (forall a s0, In a l -> P s0 -> body1 a s0 = body2 a s0) ->
  (forall a s0, In a l -> P s0 -> P (fst (body1 a s0))) ->
  try_each l body1 s = try_each l body2 s.
Proof.
  revert s; induction l as [|a l IH]; intros s Hs Heq Hinv; simpl; [reflexivity |].
  rewrite <- (Heq a s (or_introl eq_refl) Hs).
  pose proof (Hinv a s (or_introl eq_refl) Hs) as Hs'.
  destruct (body1 a s) as [s' [|what]]; [| reflexivity].
  apply IH; [exact Hs' | |]; intros; [apply Heq | apply Hinv]; simpl; auto.
Qed.

Lemma try_each_preserves {I S : Type} (P : S -> Prop) (l : list I)
    (body : I -> S -> S * outcome) (s : S) :
  P s ->
  (forall a s0, In a l -> P s0 -> P (fst (body a s0))) ->
  P (fst (try_each l body s)).
Proof.
  revert s; induction l as [|a l IH]; intros s Hs Hinv; simpl; [exact Hs |].
  pose proof (Hinv a s (or_introl eq_refl) Hs) as Hs'.
  destruct (body a s) as [s' [|what]]; [| exact Hs'].
  apply IH; [exact Hs' |]. intros; apply Hinv; simpl; auto.
Qed.

(** ** Farm layout *)

Lemma same_config_refl (a : Windfarm.t) : same_config a a.
Proof. reflexivity. Qed.

Lemma same_config_fields (a b : Windfarm.t) :
  same_config a b ->
  Windfarm.input a = Windfarm.input b /\
  Windfarm.nturbrows a = Windfarm.nturbrows b /\
  Windfarm.nturbcols a = Windfarm.nturbcols b /\
  Windfarm.spacingx a = Windfarm.spacingx b /\
  Windfarm.spacingy a = Windfarm.spacingy b /\
  Windfarm.swstaggered a = Windfarm.swstaggered b /\
  Windfarm.farmlocx a = Windfarm.farmlocx b /\
  Windfarm.farmlocy a = Windfarm.farmlocy b /\
  Windfarm.diam a = Windfarm.diam b.
Proof.
  unfold same_config, Windfarm.set_turbines. intros H.
  injection H. intros. repeat split; assumption.
Qed.

Lemma near_boundary_iff (gd : Grid_data) (self : Windfarm.t) (x y : R) :
  Windfarm.near_boundary gd self x y = true <->
  crosses gd (Windfarm.diam self) x y.
Proof.
  unfold Windfarm.near_boundary, crosses, Rgtb.
  rewrite !orb_true_iff, !Rltb_iff. unfold Rgt. tauto.
Qed.

Lemma near_boundary_false (gd : Grid_data) (self : Windfarm.t) (x y : R) :
  ~ crosses gd (Windfarm.diam self) x y ->
  Windfarm.near_boundary gd self x y = false.
Proof.
  intros H. destruct (Windfarm.near_boundary gd self x y) eqn:E; [| reflexivity].
  apply near_boundary_iff in E. contradiction.
Qed.

Lemma cand_crosses_dec (gd : Grid_data) (d : R) (c : R * R * R) :
  {cand_crosses gd d c} + {~ cand_crosses gd d c}.
Proof.
  unfold cand_crosses, crosses.
  destruct (Rlt_dec (fst (fst c) - 0.5 * d) 0); [left; tauto |].
  destruct (Rlt_dec (Grid.xsize gd) (fst (fst c) + 0.5 * d)); [left; unfold Rgt; tauto |].
  destruct (Rlt_dec (snd (fst c) - 0.5 * d) 0); [left; tauto |].
  destruct (Rlt_dec (Grid.ysize gd) (snd (fst c) + 0.5 * d)); [left; unfold Rgt; tauto |].
  right. unfold Rgt. tauto.
Qed.

Lemma add_cand_ok (gd : Grid_data) (self : Windfarm.t) (c : R * R * R) :
  ~ cand_crosses gd (Windfarm.diam self) c ->
  add_cand gd c self =
  (Windfarm.set_turbines self (Windfarm.turbines self ++ [make gd self c]), Done).
Proof.
  destruct c as [[x y] hh]. unfold cand_crosses, add_cand, Windfarm.add_turb, make.
  simpl. intros H. now rewrite near_boundary_false.
Qed.

Lemma add_cand_fail (gd : Grid_data) (self : Windfarm.t) (c : R * R * R) :
  cand_crosses gd (Windfarm.diam self) c ->
  add_cand gd c self = (self, Raised "Turbine near boundary").
Proof.
  destruct c as [[x y] hh]. unfold cand_crosses, add_cand, Windfarm.add_turb.
  simpl. intros H. apply near_boundary_iff in H. now rewrite H.
Qed.

Lemma add_all_ok (gd : Grid_data) (cs : list (R * R * R)) (self : Windfarm.t) :
  Forall (fun c => ~ cand_crosses gd (Windfarm.diam self) c) cs ->
  try_each cs (add_cand gd) self =
  (Windfarm.set_turbines self (Windfarm.turbines self ++ map (make gd self) cs),
   Done).
Proof.
  revert self; induction cs as [|c cs IH]; intros self H; simpl.
  - rewrite app_nil_r. destruct self; reflexivity.
  - inversion H as [|? ? Hc Hcs]; subst.
    rewrite add_cand_ok by exact Hc.
    rewrite IH by exact Hcs. simpl.
    rewrite <- app_assoc. reflexivity.
Qed.

Lemma add_all_fail (gd : Grid_data) (pre post : list (R * R * R))
    (c : R * R * R) (self : Windfarm.t) :
  Forall (fun c => ~ cand_crosses gd (Windfarm.diam self) c) pre ->
  cand_crosses gd (Windfarm.diam self) c ->
  try_each (pre ++ c :: post) (add_cand gd) self =
  (Windfarm.set_turbines self (Windfarm.turbines self ++ map (make gd self) pre),
   Raised "Turbine near boundary").
Proof.
  intros Hpre Hc. rewrite try_each_app, add_all_ok by exact Hpre.
  simpl. now rewrite add_cand_fail.
Qed.

(** Every list of candidates either passes as a whole or has a first
    candidate that crosses an edge. *)
Lemma first_crossing (gd : Grid_data) (d : R) (cs : list (R * R * R)) :
  Forall (fun c => ~ cand_crosses gd d c) cs \/
  exists pre c post,
    cs = pre ++ c :: post /\
    Forall (fun c => ~ cand_crosses gd d c) pre /\ cand_crosses gd d c.
Proof.
  induction cs as [|c cs IH]; [left; constructor |].
  destruct (cand_crosses_dec gd d c) as [Hc | Hc].
  - right. exists [], c, cs. repeat split; [constructor | exact Hc].
  - destruct IH as [IH | (pre & c' & post & -> & Hpre & Hc')].
    + left. constructor; assumption.
    + right. exists (c :: pre), c', post. repeat split; [constructor |]; assumption.
Qed.

Lemma add_turb_same_config (gd : Grid_data) (x y hh : R) (s : Windfarm.t) :
  same_config (fst (Windfarm.add_turb gd x y hh s)) s.
Proof.
  unfold Windfarm.add_turb.
  destruct (Windfarm.near_boundary gd s x y); simpl; reflexivity.
Qed.

Lemma same_config_trans (a b c : Windfarm.t) :
  same_config a b -> same_config b c -> same_config a c.
Proof. unfold same_config. congruence. Qed.

Lemma layout_x_config (a b : Windfarm.t) (r c : Z) :
  same_config a b -> layout_x a r c = layout_x b r c.
Proof.
  intros H. apply same_config_fields in H.
  destruct H as (_ & _ & _ & Hsx & _ & Hst & Hx & _ & Hd).
  unfold layout_x. now rewrite Hsx, Hst, Hx, Hd.
Qed.

Lemma layout_y_config (a b : Windfarm.t) (r : Z) :
  same_config a b -> layout_y a r = layout_y b r.
Proof.
  intros H. apply same_config_fields in H.
  destruct H as (_ & _ & _ & _ & Hsy & _ & _ & Hy & Hd).
  unfold layout_y. now rewrite Hsy, Hy, Hd.
Qed.

Lemma rem2_odd (r : Z) : (0 <= r)%Z -> (Z.rem r 2 =? 1)%Z = Z.odd r.
Proof.
  intros H. rewrite Z.rem_mod_nonneg by lia. rewrite Zmod_odd.
  destruct (Z.odd r); reflexivity.
Qed.

Lemma col_body_cand (gd : Grid_data) (r c : Z) (s : Windfarm.t) :
  (0 <= r)%Z ->
  Windfarm.col_body gd r (layout_y s r) c s =
  add_cand gd (layout_x s r c, layout_y s r, -1) s.
Proof.
  intros Hr. unfold Windfarm.col_body, Windfarm.stagger_offset, layout_x, add_cand.
  now rewrite rem2_odd.
Qed.

Lemma row_body_cands (gd : Grid_data) (r : Z) (s : Windfarm.t) :
  (0 <= r)%Z ->
  Windfarm.row_body gd r s =
  try_each (map (fun c => (layout_x s r c, layout_y s r, -1))
                (irange 0 (Windfarm.nturbcols s)))
           (add_cand gd) s.
Proof.
  intros Hr. unfold Windfarm.row_body. rewrite try_each_map.
  fold (layout_y s r).
  apply (try_each_agree (fun s0 => same_config s0 s)).
  - apply same_config_refl.
  - intros c s0 _ Hs0.
    rewrite <- (layout_y_config _ _ r Hs0), <- (layout_x_config _ _ r c Hs0).
    now apply col_body_cand.
  - intros c s0 _ Hs0. unfold Windfarm.col_body.
    eapply same_config_trans; [apply add_turb_same_config | exact Hs0].
Qed.

Lemma add_cand_same_config (gd : Grid_data) (c : R * R * R) (s : Windfarm.t) :
  same_config (fst (add_cand gd c s)) s.
Proof. destruct c as [[x y] hh]. apply add_turb_same_config. Qed.

Lemma regular_loop (gd : Grid_data) (s : Windfarm.t) :
  try_each (irange 0 (Windfarm.nturbrows s)) (Windfarm.row_body gd) s =
  try_each (regular_layout s) (add_cand gd) s.
Proof.
  unfold regular_layout. rewrite try_each_flat_map.
  apply (try_each_agree (fun s0 => same_config s0 s)).
  - apply same_config_refl.
  - intros r s0 Hr Hs0. apply irange_In in Hr.
    rewrite row_body_cands by lia.
    pose proof (same_config_fields _ _ Hs0) as (_ & _ & -> & _).
    f_equal. apply map_ext. intros c.
    now rewrite (layout_x_config _ _ r c Hs0), (layout_y_config _ _ r Hs0).
  - intros r s0 Hr Hs0. apply irange_In in Hr.
    rewrite row_body_cands by lia.
    apply (try_each_preserves (fun s1 => same_config s1 s)); [exact Hs0 |].
    intros c s1 _ Hs1.
    eapply same_config_trans; [apply add_cand_same_config | exact Hs1].
Qed.

(** [create] empties the collection and then either fails to open the layout
    file or adds the candidates of its mode one by one. *)
Lemma create_unfold (gd : Grid_data) (files : Windfarm.Files) (self : Windfarm.t) :
  Windfarm.create gd files self =
  if (Windfarm.layoutfile self =? EmptyString)%string then
    try_each (candidates files self) (add_cand gd) (Windfarm.set_turbines self [])
  else match files (Windfarm.layoutfile self) with
       | None => (Windfarm.set_turbines self [],
                  Raised ("Cannot open layout file " ++ Windfarm.layoutfile self))
       | Some _ =>
           try_each (candidates files self) (add_cand gd)
                    (Windfarm.set_turbines self [])
       end.
Proof.
  unfold Windfarm.create, candidates. simpl.
  destruct (Windfarm.layoutfile self =? EmptyString)%string eqn:E; simpl.
  - apply (regular_loop gd (Windfarm.set_turbines self [])).
  - destruct (files (Windfarm.layoutfile self)) as [rows|]; [| reflexivity].
    f_equal.
Qed.

(** ** What [create] of a turbine leaves alone *)

Lemma create_fields (gd : Grid_data) (self : Turbine.t) :
  let t' := Turbine.create gd self in
  Turbine.diam t' = Turbine.diam self /\
  Turbine.hhub t' = Turbine.hhub self /\
  Turbine.xpos t' = Turbine.xpos self /\
  Turbine.ypos t' = Turbine.ypos self /\
  Turbine.area t' = Turbine.area self /\
  Turbine.yaw t' = Turbine.yaw self /\
  Turbine.power t' = Turbine.power self.
Proof.
  unfold Turbine.create.
  destruct (Turbine.cover gd self (Turbine.hub_scan gd (Turbine.hhub self))).
  simpl. repeat split.
Qed.

Lemma make_position (gd : Grid_data) (self : Windfarm.t) (c : R * R * R) :
  Turbine.xpos (make gd self c) = fst (fst c) /\
  Turbine.ypos (make gd self c) = snd (fst c).
Proof.
  unfold make.
  destruct (create_fields gd
              (Turbine.new (Windfarm.input self) (fst (fst c)) (snd (fst c)) (snd c)))
    as (_ & _ & Hx & Hy & _).
  rewrite Hx, Hy. split; reflexivity.
Qed.

Lemma make_default_hub (gd : Grid_data) (self : Windfarm.t) (x y hh : R) :
  hh <= 0 ->
  Turbine.hhub (make gd self (x, y, hh)) = Turbine.in_hhub (Windfarm.input self).
Proof.
  intros H. unfold make.
  destruct (create_fields gd (Turbine.new (Windfarm.input self) x y hh))
    as (_ & Hh & _).
  simpl fst; simpl snd. rewrite Hh. unfold Turbine.new; simpl.
  unfold Rgtb. rewrite Rltb_false by lra. reflexivity.
Qed.

(** Adding candidates only ever appends to the collection. *)
Lemma add_all_extends (gd : Grid_data) (cs : list (R * R * R)) (s : Windfarm.t) :
  exists ts,
    Windfarm.turbines (fst (try_each cs (add_cand gd) s)) =
    Windfarm.turbines s ++ ts.
Proof.
  destruct (first_crossing gd (Windfarm.diam s) cs)
    as [Hok | (pre & c & post & -> & Hpre & Hc)].
  - rewrite add_all_ok by exact Hok. simpl. eauto.
  - rewrite add_all_fail by assumption. simpl. eauto.
Qed.

(** ** C7: when farm setup fails *)

(** C7.  [Windfarm::create] ends in an exception exactly when the layout file
    of file mode cannot be opened or some candidate's disk crosses an edge of
    the horizontal domain.  An unreadable file leaves the (emptied) collection
    and carries the message naming the file; at the first crossing candidate
    the call ends with "Turbine near boundary" and the collection holds
    exactly the turbines of the candidates before it; a candidate with
    x - 0.5 diam < 0 always makes the call fail that way. *)
Theorem create_raises_exactly (gd : Grid_data) (files : Windfarm.Files)
    (self : Windfarm.t) :
  let d := Windfarm.diam self in
  let cs := candidates files self in
  let r := Windfarm.create gd files self in
  ((exists what, snd r = Raised what) <->
   (unreadable files self \/ Exists (cand_crosses gd d) cs))
  /\ (unreadable files self ->
      r = (Windfarm.set_turbines self [],
           Raised ("Cannot open layout file " ++ Windfarm.layoutfile self)))
  /\ (forall pre c post,
        cs = pre ++ c :: post ->
        Forall (fun c0 => ~ cand_crosses gd d c0) pre ->
        cand_crosses gd d c ->
        r = (Windfarm.set_turbines self (map (make gd self) pre),
             Raised "Turbine near boundary"))
  /\ (forall c, In c cs -> fst (fst c) - 0.5 * d < 0 ->
        snd r = Raised "Turbine near boundary").
Proof.
  intros d cs r.
  assert (Hrun : ~ unreadable files self ->
                 r = try_each cs (add_cand gd) (Windfarm.set_turbines self [])).
  { intros Hn. subst r cs. rewrite create_unfold.
    destruct (Windfarm.layoutfile self =? EmptyString)%string eqn:E; [reflexivity |].
    destruct (files (Windfarm.layoutfile self)) eqn:F; [reflexivity |].
    exfalso. apply Hn. split; [| exact F].
    unfold file_mode. intros Hp. rewrite Hp in E. discriminate. }
  assert (Hunr : unreadable files self ->
                 r = (Windfarm.set_turbines self [],
                      Raised ("Cannot open layout file " ++ Windfarm.layoutfile self))
                 /\ cs = []).
  { intros [Hm F]. subst r cs. rewrite create_unfold. unfold candidates.
    destruct (Windfarm.layoutfile self =? EmptyString)%string eqn:E.
    - apply String.eqb_eq in E. contradiction.
    - rewrite F. split; reflexivity. }
  assert (Hdec : unreadable files self \/ ~ unreadable files self).
  { unfold unreadable, file_mode.
    destruct (string_dec (Windfarm.layoutfile self) EmptyString) as [-> | Hne].
    - right. intros [H _]. now apply H.
    - destruct (files (Windfarm.layoutfile self)).
      + right. intros [_ H]. discriminate.
      + left. split; [exact Hne | reflexivity]. }
  assert (Hsplit : forall pre c post,
             cs = pre ++ c :: post ->
             Forall (fun c0 => ~ cand_crosses gd d c0) pre ->
             cand_crosses gd d c ->
             r = (Windfarm.set_turbines self (map (make gd self) pre),
                  Raised "Turbine near boundary")).
  { intros pre c post Hcs Hpre Hc.
    destruct Hdec as [Hu | Hn].
    - destruct (Hunr Hu) as [_ Hnil]. rewrite Hnil in Hcs.
      destruct pre; discriminate.
    - rewrite (Hrun Hn), Hcs.
      rewrite add_all_fail by assumption. reflexivity. }
  split; [| split; [| split]].
  - split.
    + intros [what Hw]. destruct Hdec as [Hu | Hn]; [left; exact Hu | right].
      destruct (first_crossing gd d cs) as [Hok | (pre & c & post & Hcs & _ & Hc)].
      * rewrite (Hrun Hn) in Hw.
        rewrite (add_all_ok gd cs (Windfarm.set_turbines self [])) in Hw
          by exact Hok.
        discriminate.
      * rewrite Hcs. apply Exists_exists. exists c. split; [| exact Hc].
        apply in_or_app. right. left. reflexivity.
    + intros [Hu | Hex].
      * destruct (Hunr Hu) as [-> _]. simpl. eauto.
      * destruct (first_crossing gd d cs) as [Hok | (pre & c & post & Hcs & Hpre & Hc)].
        -- apply Exists_exists in Hex. destruct Hex as (c & Hin & Hc).
           rewrite Forall_forall in Hok. exfalso. exact (Hok c Hin Hc).
        -- rewrite (Hsplit pre c post Hcs Hpre Hc). simpl. eauto.
  - intros Hu. apply Hunr. exact Hu.
  - exact Hsplit.
  - intros c Hin Hx.
    destruct (first_crossing gd d cs) as [Hok | (pre & c' & post & Hcs & Hpre & Hc)].
    + rewrite Forall_forall in Hok. exfalso. apply (Hok c Hin).
      left. exact Hx.
    + rewrite (Hsplit pre c' post Hcs Hpre Hc). reflexivity.
Qed.

(** On the four-cell line, a single regular turbine placed at x = 0 has its
    disk reach x = -0.5: setup fails and the collection stays empty. *)
Lemma create_raises_exactly_witness :
  Windfarm.create gd_line no_files (farm_regular 1 1 0) =
  (Windfarm.set_turbines (farm_regular 1 1 0) [], Raised "Turbine near boundary").
Proof.
  pose proof (create_raises_exactly gd_line no_files (farm_regular 1 1 0))
    as (_ & _ & H & _).
  apply (H [] (layout_x (farm_regular 1 1 0) 0 0,
               layout_y (farm_regular 1 1 0) 0, -1) []).
  - reflexivity.
  - constructor.
  - left. unfold layout_x; simpl. lra.
Defined.

(** ** C10: a disk touching an edge *)

(** C10.  A candidate whose disk touches an edge of the horizontal domain
    without crossing any is accepted: the lambda ends normally and appends a
    turbine standing at the candidate's position; inside [create], once the
    candidates before it have passed, that turbine is in the collection at
    the candidate's rank, whatever follows. *)
Theorem tangent_candidate_accepted (gd : Grid_data) (files : Windfarm.Files)
    (self : Windfarm.t) (x y hh : R) :
  tangent gd (Windfarm.diam self) x y ->
  ~ crosses gd (Windfarm.diam self) x y ->
  let t := make gd self (x, y, hh) in
  Turbine.xpos t = x /\ Turbine.ypos t = y /\
  Windfarm.add_turb gd x y hh self =
    (Windfarm.set_turbines self (Windfarm.turbines self ++ [t]), Done) /\
  (forall pre post,
     candidates files self = pre ++ (x, y, hh) :: post ->
     Forall (fun c0 => ~ cand_crosses gd (Windfarm.diam self) c0) pre ->
     nth_error (Windfarm.turbines (fst (Windfarm.create gd files self)))
               (length pre) = Some t).
Proof.
  intros _ Hn t.
  destruct (make_position gd self (x, y, hh)) as [Hx Hy].
  split; [exact Hx | split; [exact Hy | split]].
  - apply (add_cand_ok gd self (x, y, hh)). exact Hn.
  - intros pre post Hcs Hpre.
    assert (Hrun : Windfarm.create gd files self =
                   try_each (candidates files self) (add_cand gd)
                            (Windfarm.set_turbines self [])).
    { rewrite create_unfold.
      destruct (Windfarm.layoutfile self =? EmptyString)%string eqn:E; [reflexivity |].
      destruct (files (Windfarm.layoutfile self)) eqn:F; [reflexivity |].
      exfalso. unfold candidates in Hcs. rewrite E, F in Hcs.
      destruct pre; discriminate. }
    rewrite Hrun, Hcs.
    change (pre ++ (x, y, hh) :: post) with (pre ++ [(x, y, hh)] ++ post).
    rewrite app_assoc, try_each_app.
    rewrite (add_all_ok gd (pre ++ [(x, y, hh)]) (Windfarm.set_turbines self [])).
    + destruct (add_all_extends gd post
                  (Windfarm.set_turbines (Windfarm.set_turbines self [])
                     (Windfarm.turbines (Windfarm.set_turbines self []) ++
                      map (make gd (Windfarm.set_turbines self []))
                          (pre ++ [(x, y, hh)]))))
        as [ts Hts].
      match goal with
      | |- nth_error (Windfarm.turbines (fst ?e)) _ = _ =>
          replace e with
            (try_each post (add_cand gd)
               (Windfarm.set_turbines (Windfarm.set_turbines self [])
                  (Windfarm.turbines (Windfarm.set_turbines self []) ++
                   map (make gd (Windfarm.set_turbines self []))
                       (pre ++ [(x, y, hh)]))))
      end.
      * rewrite Hts. simpl. rewrite map_app. simpl.
        rewrite <- app_assoc. simpl.
        rewrite nth_error_app2 by (rewrite length_map; lia).
        rewrite length_map, Nat.sub_diag. reflexivity.
      * destruct (try_each post (add_cand gd) _) as [s' [|w]] eqn:E; reflexivity.
    + apply Forall_app. split; [exact Hpre |].
      constructor; [exact Hn | constructor].
Qed.

(** On the four-cell line (domain 4 by 1) a disk of diameter 1 centred at
    (2.5, 0.5) touches both y edges; the file-free farm accepts it. *)
Lemma tangent_candidate_accepted_witness :
  Windfarm.add_turb gd_line 2.5 0.5 (-1) (farm_regular 1 1 2.5) =
  (Windfarm.set_turbines (farm_regular 1 1 2.5)
     [make gd_line (farm_regular 1 1 2.5) (2.5, 0.5, -1)], Done).
Proof.
  apply (tangent_candidate_accepted gd_line no_files (farm_regular 1 1 2.5)
           2.5 0.5 (-1)).
  - unfold tangent; simpl. right; right; left. lra.
  - unfold crosses; simpl. lra.
Defined.

(** ** C8: the regular layout *)

Lemma irange_nth_error (s e : Z) (n : nat) :
  (n < Z.to_nat (e - s))%nat ->
  nth_error (irange s e) n = Some (s + Z.of_nat n)%Z.
Proof.
  intros H. unfold irange. rewrite nth_error_map, nth_error_seq.
  destruct (Nat.ltb_spec n (Z.to_nat (e - s))); [reflexivity | lia].
Qed.

Lemma grid_nth_error {A B C : Type} (f : A -> B -> C) (rows : list A)
    (cols : list B) (ri ci : nat) (a : A) (b : B) :
  nth_error rows ri = Some a ->
  nth_error cols ci = Some b ->
  nth_error (flat_map (fun r => map (f r) cols) rows) (ri * length cols + ci)
  = Some (f a b).
Proof.
  revert ri; induction rows as [|r0 rows IH]; intros ri Ha Hb.
  - destruct ri; discriminate.
  - destruct ri as [|ri]; simpl in *.
    + injection Ha as ->.
      rewrite nth_error_app1
        by (rewrite length_map; apply nth_error_Some; congruence).
      now apply map_nth_error.
    + rewrite nth_error_app2 by (rewrite length_map; lia).
      rewrite length_map.
      replace (length cols + ri * length cols + ci - length cols)%nat
        with (ri * length cols + ci)%nat by lia.
      now apply IH.
Qed.

Lemma regular_layout_length (self : Windfarm.t) :
  length (regular_layout self) =
  (Z.to_nat (Windfarm.nturbrows self) * Z.to_nat (Windfarm.nturbcols self))%nat.
Proof.
  unfold regular_layout.
  rewrite (flat_map_constant_length (c := Z.to_nat (Windfarm.nturbcols self))).
  - rewrite irange_length. f_equal. lia.
  - intros r _. rewrite length_map, irange_length. lia.
Qed.

Lemma regular_layout_nth (self : Windfarm.t) (r c : Z) :
  (0 <= r < Windfarm.nturbrows self)%Z ->
  (0 <= c < Windfarm.nturbcols self)%Z ->
  nth_error (regular_layout self)
            (Z.to_nat (r * Windfarm.nturbcols self + c))
  = Some (layout_x self r c, layout_y self r, -1).
Proof.
  intros Hr Hc. unfold regular_layout.
  replace (Z.to_nat (r * Windfarm.nturbcols self + c))
    with (Z.to_nat r * length (irange 0 (Windfarm.nturbcols self)) + Z.to_nat c)%nat
    by (rewrite irange_length; nia).
  apply (grid_nth_error
           (fun r0 c0 => (layout_x self r0 c0, layout_y self r0, -1))).
  - rewrite irange_nth_error by lia. f_equal. lia.
  - rewrite irange_nth_error by lia. f_equal. lia.
Qed.

(** C8 as stated fails for negative counts: with [nturbrows = nturbcols = -1]
    no candidate is generated, setup succeeds with no turbine, yet the product
    of the two counts is 1. *)
Lemma regular_count_negative_rows_cols :
  Windfarm.layoutfile (farm_regular (-1) (-1) 2.5) = EmptyString /\
  Forall (fun c => ~ cand_crosses gd_line (Windfarm.diam (farm_regular (-1) (-1) 2.5)) c)
         (candidates no_files (farm_regular (-1) (-1) 2.5)) /\
  snd (Windfarm.create gd_line no_files (farm_regular (-1) (-1) 2.5)) = Done /\
  Windfarm.turbines
    (fst (Windfarm.create gd_line no_files (farm_regular (-1) (-1) 2.5))) = [] /\
  Z.of_nat (length (Windfarm.turbines
     (fst (Windfarm.create gd_line no_files (farm_regular (-1) (-1) 2.5)))))
  <> (Windfarm.nturbrows (farm_regular (-1) (-1) 2.5)
      * Windfarm.nturbcols (farm_regular (-1) (-1) 2.5))%Z.
Proof.
  repeat split.
  - constructor.
  - simpl. discriminate.
Qed.

(** C8 (amended).  In procedural mode, when every position of the regular
    layout passes the boundary test, [create] ends normally and replaces the
    collection by max(nturbrows,0) * max(nturbcols,0) turbines (which is
    nturbrows * nturbcols when neither count is negative); the turbine of row
    [r], column [c] has rank r * nturbcols + c, stands at
    (farmlocx + c spacingx diam [+ 0.5 spacingx diam when staggered and r is
    odd], farmlocy + r spacingy diam), and has the configured hub height. *)
Theorem regular_layout_turbines (gd : Grid_data) (files : Windfarm.Files)
    (self : Windfarm.t) :
  Windfarm.layoutfile self = EmptyString ->
  Forall (fun c => ~ cand_crosses gd (Windfarm.diam self) c)
         (regular_layout self) ->
  let r := Windfarm.create gd files self in
  let ts := Windfarm.turbines (fst r) in
  let R := Windfarm.nturbrows self in
  let C := Windfarm.nturbcols self in
  snd r = Done /\
  length ts = (Z.to_nat R * Z.to_nat C)%nat /\
  ((0 <= R)%Z -> (0 <= C)%Z -> Z.of_nat (length ts) = (R * C)%Z) /\
  forall row col, (0 <= row < R)%Z -> (0 <= col < C)%Z ->
    exists t,
      nth_error ts (Z.to_nat (row * C + col)) = Some t /\
      Turbine.xpos t =
        Windfarm.farmlocx self
        + IZR col * Windfarm.spacingx self * Windfarm.diam self
        + (if Windfarm.swstaggered self && Z.odd row
           then 0.5 * Windfarm.spacingx self * Windfarm.diam self else 0) /\
      Turbine.ypos t =
        Windfarm.farmlocy self
        + IZR row * Windfarm.spacingy self * Windfarm.diam self /\
      Turbine.hhub t = Turbine.in_hhub (Windfarm.input self).
Proof.
  intros Hfile Hok r ts R C.
  assert (Hr : r = (Windfarm.set_turbines self
                      (map (make gd self) (regular_layout self)), Done)).
  { subst r. rewrite create_unfold. unfold candidates. rewrite Hfile.
    rewrite String.eqb_refl.
    rewrite (add_all_ok gd (regular_layout self)
               (Windfarm.set_turbines self [])) by exact Hok.
    reflexivity. }
  assert (Hts : ts = map (make gd self) (regular_layout self))
    by (subst ts; rewrite Hr; reflexivity).
  assert (Hlen : length ts = (Z.to_nat R * Z.to_nat C)%nat)
    by (rewrite Hts, length_map; apply regular_layout_length).
  split; [rewrite Hr; reflexivity | split; [exact Hlen | split]].
  - intros HR HC. rewrite Hlen. nia.
  - intros row col Hrow Hcol.
    exists (make gd self (layout_x self row col, layout_y self row, -1)).
    split; [| split; [| split]].
    + rewrite Hts. apply map_nth_error. now apply regular_layout_nth.
    + apply make_position.
    + apply make_position.
    + apply make_default_hub. lra.
Qed.

(** A 1 x 2 farm at x0 = 1.5 with spacing of one diameter: both disks lie
    inside the 4 x 1 domain and two turbines are created. *)
Lemma regular_layout_turbines_witness :
  length (Windfarm.turbines
            (fst (Windfarm.create gd_line no_files (farm_regular 1 2 1.5))))
  = 2%nat.
Proof.
  apply (regular_layout_turbines gd_line no_files (farm_regular 1 2 1.5)).
  - reflexivity.
  - unfold regular_layout, layout_x, layout_y, cand_crosses, crosses; simpl.
    repeat constructor; simpl; lra.
Defined.

(** ** Vectors *)

Lemma upd_length {A : Type} (arr : list A) (n : nat) (a : A) :
  length (upd arr n a) = length arr.
Proof.
  revert n; induction arr as [|h tl IH]; intros [|n]; simpl; auto.
Qed.

Lemma upd_nth {A : Type} (arr : list A) (n m : nat) (a d : A) :
  (m < length arr)%nat ->
  nth m (upd arr n a) d = if (n =? m)%nat then a else nth m arr d.
Proof.
  revert n m; induction arr as [|h tl IH]; intros [|n] [|m] H; simpl in *;
    try lia; try reflexivity.
  apply IH. lia.
Qed.

Lemma vset_length {A : Type} (arr : list A) (i : Z) (a : A) :
  length (vset arr i a) = length arr.
Proof.
  unfold vset. destruct (i <? 0)%Z; [reflexivity | apply upd_length].
Qed.

(** Reading a valid element after a write anywhere. *)
Lemma vget_vset {A : Type} (d : A) (arr : list A) (i p : Z) (a : A) :
  (0 <= p < Z.of_nat (length arr))%Z ->
  vget d (vset arr i a) p = if (i =? p)%Z then a else vget d arr p.
Proof.
  intros Hp. unfold vget, vset.
  destruct (Z.ltb_spec p 0); [lia |].
  destruct (Z.ltb_spec i 0).
  - destruct (Z.eqb_spec i p); [lia | reflexivity].
  - rewrite upd_nth by lia.
    destruct (Nat.eqb_spec (Z.to_nat i) (Z.to_nat p)), (Z.eqb_spec i p);
      try reflexivity; lia.
Qed.

(** ** Sums *)

Lemma big_sum_shift (f : nat -> R) (n : nat) :
  big_sum f (S n) = f O + big_sum (fun k => f (S k)) n.
Proof.
  induction n as [|n IH]; simpl in *; [lra |]. rewrite IH. lra.
Qed.

Lemma big_sum_ext (f g : nat -> R) (n : nat) :
  (forall k, (k < n)%nat -> f k = g k) -> big_sum f n = big_sum g n.
Proof.
  induction n as [|n IH]; intros H; simpl; [reflexivity |].
  rewrite IH by (intros; apply H; lia). rewrite H by lia. reflexivity.
Qed.

Lemma big_sum_zero (f : nat -> R) (n : nat) :
  (forall k, (k < n)%nat -> f k = 0) -> big_sum f n = 0.
Proof.
  induction n as [|n IH]; intros H; simpl; [reflexivity |].
  rewrite IH by (intros; apply H; lia). rewrite H by lia. lra.
Qed.

(** A sum with a single non-zero term. *)
Lemma big_sum_single (f : nat -> R) (n m : nat) :
  (m < n)%nat ->
  (forall k, (k < n)%nat -> k <> m -> f k = 0) ->
  big_sum f n = f m.
Proof.
  induction n as [|n IH]; intros Hm H; [lia |]. simpl.
  destruct (Nat.eq_dec m n) as [-> | Hne].
  - rewrite big_sum_zero; [lra |]. intros k Hk. apply H; lia.
  - rewrite IH by (try lia; intros; apply H; lia).
    rewrite (H n) by lia. lra.
Qed.

(** ** The loops of [exec] *)

Lemma seq_S_cons (a len : nat) : seq a (S len) = a :: seq (S a) len.
Proof. reflexivity. Qed.

(** The averaging loop returns the running sum, leaves both vectors alone and
    only loads elements listed in the footprint. *)
Lemma mean_loop (self : Turbine.t) (len a : nat) (acc : R) (s : Flow) :
  (a + len <= length (Turbine.indices self))%nat ->
  exists tr,
    for_each (seq a len) (Turbine.mean_body self) acc s =
    (acc + big_sum (fun k => disk_term self s (a + k)) len,
     mkFlow (fld_u s) (fld_v s) (tr ++ trace s)) /\
    Forall (fun x => is_store x = false /\
                     In (access_index x) (Turbine.indices self)) tr.
Proof.
  revert a acc s; induction len as [|len IH]; intros a acc s Hlen.
  - exists []. split; [| constructor]. simpl. unfold ret.
    destruct s; simpl. f_equal. lra.
  - rewrite seq_S_cons. cbn [for_each]. unfold bind at 1.
    unfold Turbine.mean_body at 1. unfold bind, load, ret. cbn [fld fld_u fld_v trace].
    match goal with
    | |- exists tr, for_each _ _ ?acc1 ?s1 = _ /\ _ =>
        destruct (IH (S a) acc1 s1 ltac:(lia)) as (tr & Heq & Htr)
    end.
    rewrite Heq. cbn [fld_u fld_v trace].
    exists (tr ++ [Load V (nth a (Turbine.indices self) 0%Z);
                   Load U (nth a (Turbine.indices self) 0%Z)]).
    split.
    + rewrite <- app_assoc. cbn [app]. f_equal.
      transitivity (acc + disk_term self s a
                    + big_sum (fun k => disk_term self s (S a + k)) len).
      * reflexivity.
      * rewrite big_sum_shift, Nat.add_0_r.
        rewrite (big_sum_ext (fun k => disk_term self s (a + S k))
                             (fun k => disk_term self s (S a + k))); [lra |].
        intros k _. replace (a + S k)%nat with (S a + k)%nat by lia.
        reflexivity.
    + apply Forall_app. split; [exact Htr |].
      assert (Hin : In (nth a (Turbine.indices self) 0%Z) (Turbine.indices self))
        by (apply nth_In; lia).
      repeat constructor; exact Hin.
Qed.

(** The forcing loop: each valid element ends up lowered by the increments
    of the footprint entries pointing at it; every access is to an element
    listed in the footprint. *)
Lemma force_loop (self : Turbine.t) (thrust : R) (len a : nat) (s : Flow) :
  (a + len <= length (Turbine.indices self))%nat ->
  exists s',
    for_each (seq a len) (Turbine.force_body self thrust) tt s = (tt, s') /\
    length (fld_u s') = length (fld_u s) /\
    length (fld_v s') = length (fld_v s) /\
    (forall p, (0 <= p < Z.of_nat (length (fld_u s)))%Z ->
       vget 0 (fld_u s') p =
       vget 0 (fld_u s) p
       - big_sum (fun k => if (nth (a + k) (Turbine.indices self) 0 =? p)%Z
                           then thrust * nth (a + k) (Turbine.weights self) 0
                                * cos (Turbine.yaw self)
                           else 0) len) /\
    (forall p, (0 <= p < Z.of_nat (length (fld_v s)))%Z ->
       vget 0 (fld_v s') p =
       vget 0 (fld_v s) p
       - big_sum (fun k => if (nth (a + k) (Turbine.indices self) 0 =? p)%Z
                           then thrust * nth (a + k) (Turbine.weights self) 0
                                * sin (Turbine.yaw self)
                           else 0) len) /\
    exists tr, trace s' = tr ++ trace s /\
               Forall (fun x => In (access_index x) (Turbine.indices self)) tr.
Proof.
  revert a s; induction len as [|len IH]; intros a s Hlen.
  - exists s. simpl. unfold ret.
    repeat split; try (intros; lra).
    exists []. split; [reflexivity | constructor].
  - rewrite seq_S_cons. cbn [for_each]. unfold bind at 1.
    unfold Turbine.force_body at 1. unfold bind, load, store, ret.
    cbn [fld fld_u fld_v trace].
    set (idx := nth a (Turbine.indices self) 0%Z).
    set (f := thrust * nth a (Turbine.weights self) 0).
    match goal with
    | |- exists s', for_each _ _ tt ?s1 = _ /\ _ =>
        destruct (IH (S a) s1 ltac:(lia))
          as (s' & Heq & Hlu & Hlv & Hu & Hv & tr & Htr & Hall)
    end.
    cbn [fld_u fld_v trace] in *.
    rewrite vset_length in Hlu, Hlv, Hu, Hv.
    exists s'. split; [exact Heq |].
    split; [exact Hlu | split; [exact Hlv |]].
    split; [| split].
    + intros p Hp. rewrite (Hu p Hp), vget_vset by exact Hp.
      rewrite big_sum_shift, Nat.add_0_r. fold idx.
      rewrite (big_sum_ext
                 (fun k => if (nth (a + S k) (Turbine.indices self) 0 =? p)%Z
                           then thrust * nth (a + S k) (Turbine.weights self) 0
                                * cos (Turbine.yaw self) else 0)
                 (fun k => if (nth (S a + k) (Turbine.indices self) 0 =? p)%Z
                           then thrust * nth (S a + k) (Turbine.weights self) 0
                                * cos (Turbine.yaw self) else 0))
        by (intros k _; replace (a + S k)%nat with (S a + k)%nat by lia;
            reflexivity).
      fold f. destruct (Z.eqb_spec idx p) as [-> |]; lra.
    + intros p Hp. rewrite (Hv p Hp), vget_vset by exact Hp.
      rewrite big_sum_shift, Nat.add_0_r. fold idx.
      rewrite (big_sum_ext
                 (fun k => if (nth (a + S k) (Turbine.indices self) 0 =? p)%Z
                           then thrust * nth (a + S k) (Turbine.weights self) 0
                                * sin (Turbine.yaw self) else 0)
                 (fun k => if (nth (S a + k) (Turbine.indices self) 0 =? p)%Z
                           then thrust * nth (S a + k) (Turbine.weights self) 0
                                * sin (Turbine.yaw self) else 0))
        by (intros k _; replace (a + S k)%nat with (S a + k)%nat by lia;
            reflexivity).
      fold f. destruct (Z.eqb_spec idx p) as [-> |]; lra.
    + exists (tr ++ [Store V idx; Load V idx; Store U idx; Load U idx]).
      split; [rewrite Htr, <- app_assoc; reflexivity |].
      apply Forall_app. split; [exact Hall |].
      assert (Hin : In idx (Turbine.indices self))
        by (apply nth_In; lia).
      repeat constructor; exact Hin.
Qed.

(** ** One call of [Turbine::exec] *)

Lemma update_yaw_run (gd : Grid_data) (self : Turbine.t) (time : R) (s : Flow) :
  Turbine.update_yaw gd self time s =
  if Turbine.yaw_due self time then
    let idx := Turbine.upstream_index gd self in
    (Turbine.set_yaw self
       (Turbine.yaw self
        + (atan2 (vget 0 (fld_v s) idx) (vget 0 (fld_u s) idx) - Turbine.yaw self)
          * 0.2)
       (Turbine.next_yaw self + Turbine.yawperiod self),
     mkFlow (fld_u s) (fld_v s) (Load V idx :: Load U idx :: trace s))
  else (self, s).
Proof.
  unfold Turbine.update_yaw. destruct (Turbine.yaw_due self time); reflexivity.
Qed.

(** The yaw update changes the yaw and its schedule only, and no element of
    the flow field. *)
Lemma update_yaw_frame (gd : Grid_data) (self : Turbine.t) (time : R) (s : Flow) :
  let self1 := fst (Turbine.update_yaw gd self time s) in
  let s1 := snd (Turbine.update_yaw gd self time s) in
  Turbine.indices self1 = Turbine.indices self /\
  Turbine.weights self1 = Turbine.weights self /\
  Turbine.ct self1 = Turbine.ct self /\
  Turbine.cp self1 = Turbine.cp self /\
  Turbine.area self1 = Turbine.area self /\
  Turbine.diam self1 = Turbine.diam self /\
  fld_u s1 = fld_u s /\ fld_v s1 = fld_v s.
Proof.
  rewrite update_yaw_run.
  destruct (Turbine.yaw_due self time); simpl; repeat split.
Qed.

Lemma disk_velocity_fields (self : Turbine.t) (s s' : Flow) :
  fld_u s' = fld_u s -> fld_v s' = fld_v s ->
  disk_velocity self s' = disk_velocity self s.
Proof.
  intros Hu Hv. unfold disk_velocity. apply big_sum_ext. intros k _.
  unfold disk_term. now rewrite Hu, Hv.
Qed.

(** Everything a step that passed the start-time test does. *)
Lemma step_run (gd : Grid_data) (self : Turbine.t) (time : R) (s : Flow) :
  let self1 := fst (Turbine.update_yaw gd self time s) in
  let vbar := disk_velocity self1 s in
  let thrust := Turbine.thrust_of self1 vbar in
  exists s',
    Turbine.step gd self time s =
      (Turbine.set_power self1 (Turbine.power_of self1 vbar), s') /\
    length (fld_u s') = length (fld_u s) /\
    length (fld_v s') = length (fld_v s) /\
    (forall p, (0 <= p < Z.of_nat (length (fld_u s)))%Z ->
       vget 0 (fld_u s') p =
       vget 0 (fld_u s) p - increment self1 thrust (cos (Turbine.yaw self1)) p) /\
    (forall p, (0 <= p < Z.of_nat (length (fld_v s)))%Z ->
       vget 0 (fld_v s') p =
       vget 0 (fld_v s) p - increment self1 thrust (sin (Turbine.yaw self1)) p) /\
    (Turbine.indices self = [] -> fld_u s' = fld_u s /\ fld_v s' = fld_v s) /\
    exists tr,
      trace s' = tr ++ trace (snd (Turbine.update_yaw gd self time s)) /\
      Forall (fun x => In (access_index x) (Turbine.indices self)) tr.
Proof.
  intros self1 vbar thrust.
  destruct (update_yaw_frame gd self time s)
    as (Hi & Hw & _ & _ & _ & _ & Hu1 & Hv1).
  fold self1 in Hi, Hw.
  unfold Turbine.step. unfold bind at 1.
  destruct (Turbine.update_yaw gd self time s) as [t1 s1] eqn:Eyaw.
  cbn [fst snd] in *. subst self1.
  unfold bind at 1.
  destruct (mean_loop t1 (length (Turbine.indices t1)) 0 0 s1 (Nat.le_refl _))
    as (trm & Hm & Htrm).
  rewrite Hm.
  assert (Hbar : 0 + big_sum (fun k => disk_term t1 s1 (0 + k))
                             (length (Turbine.indices t1)) = vbar).
  { subst vbar. rewrite <- (disk_velocity_fields t1 s s1) by assumption.
    unfold disk_velocity. rewrite Rplus_0_l. reflexivity. }
  rewrite Hbar. fold thrust.
  set (t2 := Turbine.set_power t1 (Turbine.power_of t1 vbar)).
  unfold bind, ret.
  destruct (force_loop t2 thrust (length (Turbine.indices t1)) 0
              (mkFlow (fld_u s1) (fld_v s1) (trm ++ trace s1)) (Nat.le_refl _))
    as (s' & Hf & Hlu & Hlv & Hu & Hv & trf & Htrf & Hallf).
  rewrite Hf. cbn [fld_u fld_v trace] in *.
  exists s'. split; [reflexivity |].
  rewrite Hu1 in Hlu, Hu. rewrite Hv1 in Hlv, Hv.
  split; [exact Hlu | split; [exact Hlv |]].
  split; [exact Hu | split; [exact Hv | split]].
  - intros Hnil. rewrite Hnil in Hi. rewrite Hi in Hf. simpl in Hf.
    unfold ret in Hf. injection Hf as <-. simpl. split; assumption.
  - exists (trf ++ trm). split; [rewrite Htrf, app_assoc; reflexivity |].
    apply Forall_app. split.
    + rewrite <- Hi. exact Hallf.
    + rewrite <- Hi. eapply Forall_impl; [| exact Htrm]. intros x [_ H]. exact H.
Qed.

Lemma exec_run (gd : Grid_data) (self : Turbine.t) (time : R) (s : Flow) :
  Turbine.exec gd self time s =
  if Rltb time (Turbine.turbstarttime self) then (self, s)
  else Turbine.step gd self time s.
Proof.
  unfold Turbine.exec.
  destruct (Rltb time (Turbine.turbstarttime self)); reflexivity.
Qed.

(** [exec] never changes the static parameters, the hub level or the
    footprint. *)
Lemma exec_static (gd : Grid_data) (self : Turbine.t) (time : R) (s : Flow) :
  let self' := fst (Turbine.exec gd self time s) in
  Turbine.diam self' = Turbine.diam self /\
  Turbine.area self' = Turbine.area self /\
  Turbine.k_hub self' = Turbine.k_hub self /\
  Turbine.indices self' = Turbine.indices self /\
  Turbine.weights self' = Turbine.weights self.
Proof.
  rewrite exec_run.
  destruct (Rltb time (Turbine.turbstarttime self)); [simpl; repeat split |].
  destruct (step_run gd self time s) as (s' & -> & _).
  rewrite update_yaw_run.
  destruct (Turbine.yaw_due self time); simpl; repeat split.
Qed.

Lemma reachable_area (gd : Grid_data) (self : Turbine.t) :
  reachable gd self ->
  Turbine.area self = PI * Turbine.diam self * Turbine.diam self * 0.25.
Proof.
  induction 1 as [input xin yin hh | self _ IH | self time s _ IH].
  - reflexivity.
  - destruct (create_fields gd self) as (-> & _ & _ & _ & -> & _). exact IH.
  - destruct (exec_static gd self time s) as (-> & -> & _). exact IH.
Qed.

(** ** C5: the start-time test *)

(** C5.  A call with [time] strictly before the start time returns at once:
    the turbine object (power, yaw, yaw schedule and all else) and the flow
    field are exactly what they were, and no element is accessed.  A call with
    [time] equal to the start time is not skipped: it runs the whole step and
    the reported power is the one computed from the disk average. *)
Theorem exec_start_guard (gd : Grid_data) (self : Turbine.t) (time : R) (s : Flow) :
  (time < Turbine.turbstarttime self ->
     Turbine.exec gd self time s = (self, s)) /\
  (time = Turbine.turbstarttime self ->
     Turbine.exec gd self time s = Turbine.step gd self time s /\
     let self1 := fst (Turbine.update_yaw gd self time s) in
     let vbar := disk_velocity self1 s in
     Turbine.get_power (fst (Turbine.exec gd self time s)) =
       Turbine.cp self * 0.5 * vbar * vbar * vbar * Turbine.area self).
Proof.
  split.
  - intros H. rewrite exec_run, Rltb_true by exact H. reflexivity.
  - intros H. rewrite exec_run, Rltb_false by lra.
    split; [reflexivity |].
    destruct (step_run gd self time s) as (s' & -> & _).
    destruct (update_yaw_frame gd self time s) as (_ & _ & _ & Hcp & Ha & _).
    unfold Turbine.get_power. cbn [fst Turbine.power Turbine.set_power].
    unfold Turbine.power_of. now rewrite Hcp, Ha.
Qed.

(** ** C1: averaged velocity, thrust, power and forcing *)

Lemma thrust_sign (c vbar : R) :
  c > 0 -> vbar < 0 -> 0.5 * c * vbar * Rabs vbar < 0.
Proof.
  intros Hc Hv. rewrite Rabs_left by exact Hv.
  assert (0 < vbar * vbar) by nra. nra.
Qed.

Lemma increment_single (self : Turbine.t) (thrust dir : R) (n : nat) :
  NoDup (Turbine.indices self) ->
  (n < length (Turbine.indices self))%nat ->
  increment self thrust dir (nth n (Turbine.indices self) 0%Z) =
  thrust * nth n (Turbine.weights self) 0 * dir.
Proof.
  intros Hnd Hn. unfold increment.
  rewrite (big_sum_single _ _ n Hn).
  - now rewrite Z.eqb_refl.
  - intros k Hk Hne.
    destruct (Z.eqb_spec (nth k (Turbine.indices self) 0%Z)
                         (nth n (Turbine.indices self) 0%Z)) as [E |]; [| reflexivity].
    exfalso. apply Hne.
    apply (proj1 (NoDup_nth (Turbine.indices self) 0%Z) Hnd k n Hk Hn E).
Qed.

Lemma increment_outside (self : Turbine.t) (thrust dir : R) (p : Z) :
  ~ In p (Turbine.indices self) -> increment self thrust dir p = 0.
Proof.
  intros Hp. unfold increment. apply big_sum_zero. intros k Hk.
  destruct (Z.eqb_spec (nth k (Turbine.indices self) 0%Z) p) as [E |]; [| reflexivity].
  exfalso. apply Hp. rewrite <- E. now apply nth_In.
Qed.

(** C1.  For a turbine object of the program and a call at or after the start
    time, with [yaw1] the yaw angle after the yaw update of that call and
    [vbar] the sum over the footprint of weight[n] (u[idx] cos yaw1 + v[idx]
    sin yaw1) on the incoming field: the yaw kept is [yaw1]; the reported
    power is cp 0.5 vbar^3 (pi diam^2 / 4); the thrust 0.5 ct vbar |vbar|
    equals -0.5 ct vbar^2 for negative [vbar], hence is negative for a
    positive thrust coefficient; every valid element [p] of u (of v)
    is lowered by the total of thrust weight[n] cos yaw1 (sin yaw1) over the
    footprint entries n pointing at p, so by exactly thrust weight[n] cos yaw1
    at a footprint cell when the footprint has no repeated index, and not at
    all outside the footprint; with an empty footprint vbar, thrust and power
    are zero and both vectors are untouched. *)
Theorem exec_step_effects (gd : Grid_data) (self : Turbine.t) (time : R)
    (s : Flow) :
  reachable gd self ->
  Turbine.turbstarttime self <= time ->
  let self1 := fst (Turbine.update_yaw gd self time s) in
  let yaw1 := Turbine.yaw self1 in
  let vbar := disk_velocity self1 s in
  let thrust := 0.5 * Turbine.ct self * vbar * Rabs vbar in
  let self' := fst (Turbine.exec gd self time s) in
  let s' := snd (Turbine.exec gd self time s) in
  Turbine.yaw self' = yaw1 /\
  Turbine.get_power self' =
    Turbine.cp self * 0.5 * vbar ^ 3 * (PI * Turbine.diam self ^ 2 / 4) /\
  (vbar < 0 -> thrust = - (0.5 * Turbine.ct self * vbar * vbar)) /\
  (Turbine.ct self > 0 -> vbar < 0 -> thrust < 0) /\
  length (fld_u s') = length (fld_u s) /\
  length (fld_v s') = length (fld_v s) /\
  (forall p, (0 <= p < Z.of_nat (length (fld_u s)))%Z ->
     vget 0 (fld_u s') p = vget 0 (fld_u s) p - increment self thrust (cos yaw1) p) /\
  (forall p, (0 <= p < Z.of_nat (length (fld_v s)))%Z ->
     vget 0 (fld_v s') p = vget 0 (fld_v s) p - increment self thrust (sin yaw1) p) /\
  (NoDup (Turbine.indices self) ->
   forall n, (n < length (Turbine.indices self))%nat ->
     let idx := nth n (Turbine.indices self) 0%Z in
     let w := nth n (Turbine.weights self) 0 in
     ((0 <= idx < Z.of_nat (length (fld_u s)))%Z ->
        vget 0 (fld_u s') idx = vget 0 (fld_u s) idx - thrust * w * cos yaw1) /\
     ((0 <= idx < Z.of_nat (length (fld_v s)))%Z ->
        vget 0 (fld_v s') idx = vget 0 (fld_v s) idx - thrust * w * sin yaw1)) /\
  (forall p, ~ In p (Turbine.indices self) ->
     vget 0 (fld_u s') p = vget 0 (fld_u s) p /\
     vget 0 (fld_v s') p = vget 0 (fld_v s) p) /\
  (Turbine.indices self = [] ->
     vbar = 0 /\ thrust = 0 /\ Turbine.get_power self' = 0 /\
     fld_u s' = fld_u s /\ fld_v s' = fld_v s).
Proof.
  intros Hreach Hstart self1 yaw1 vbar thrust self' s'.
  pose proof (reachable_area gd self Hreach) as Harea.
  destruct (update_yaw_frame gd self time s)
    as (Hi & Hw & Hct & Hcp & Ha & Hd & _ & _).
  fold self1 in Hi, Hw, Hct, Hcp, Ha, Hd.
  destruct (step_run gd self time s)
    as (s2 & Hstep & Hlu & Hlv & Hu & Hv & Hnil & _).
  fold self1 vbar in Hstep, Hu, Hv.
  assert (Hexec : Turbine.exec gd self time s =
                  (Turbine.set_power self1 (Turbine.power_of self1 vbar), s2)).
  { rewrite exec_run, Rltb_false by lra. exact Hstep. }
  assert (Hthr : Turbine.thrust_of self1 vbar = thrust).
  { unfold Turbine.thrust_of. rewrite Hct. reflexivity. }
  assert (Hinc : forall dir p,
             increment self1 (Turbine.thrust_of self1 vbar) dir p =
             increment self thrust dir p).
  { intros dir p. unfold increment. now rewrite Hi, Hw, Hthr. }
  assert (Hu' : forall p, (0 <= p < Z.of_nat (length (fld_u s)))%Z ->
            vget 0 (fld_u s2) p =
            vget 0 (fld_u s) p - increment self thrust (cos yaw1) p).
  { intros p Hp. rewrite (Hu p Hp), Hinc. reflexivity. }
  assert (Hv' : forall p, (0 <= p < Z.of_nat (length (fld_v s)))%Z ->
            vget 0 (fld_v s2) p =
            vget 0 (fld_v s) p - increment self thrust (sin yaw1) p).
  { intros p Hp. rewrite (Hv p Hp), Hinc. reflexivity. }
  assert (Hpow : Turbine.get_power self' =
                 Turbine.cp self * 0.5 * vbar ^ 3 * (PI * Turbine.diam self ^ 2 / 4)).
  { subst self'. rewrite Hexec. unfold Turbine.get_power.
    cbn [fst Turbine.power Turbine.set_power]. unfold Turbine.power_of.
    rewrite Hcp, Ha, Harea.
    replace 0.25 with (/ 4) by lra. generalize 0.5. intros h. field. }
  subst self' s'. rewrite Hexec. cbn [fst snd].
  rewrite Hexec in Hpow. cbn [fst] in Hpow.
  split; [reflexivity |].
  split; [exact Hpow |].
  split; [intros Hneg; unfold thrust; rewrite Rabs_left by exact Hneg; ring |].
  split; [apply thrust_sign |].
  split; [exact Hlu | split; [exact Hlv |]].
  split; [exact Hu' | split; [exact Hv' |]].
  split; [| split].
  - intros Hnd n Hn. split; intros Hidx.
    + rewrite (Hu' _ Hidx). now rewrite increment_single.
    + rewrite (Hv' _ Hidx). now rewrite increment_single.
  - intros p Hp.
    assert (Hout : forall (l l' : list R),
               length l' = length l ->
               ((0 <= p < Z.of_nat (length l))%Z -> vget 0 l' p = vget 0 l p - 0) ->
               vget 0 l' p = vget 0 l p).
    { intros l l' Hl H.
      destruct (Z.ltb_spec p 0) as [Hneg | Hpos].
      - unfold vget. destruct (Z.ltb_spec p 0); [reflexivity | lia].
      - destruct (Z.ltb_spec p (Z.of_nat (length l))) as [Hin | Hbig].
        + rewrite H by lia. lra.
        + unfold vget. destruct (Z.ltb_spec p 0); [reflexivity |].
          rewrite !nth_overflow by lia. reflexivity. }
    split; apply Hout; try assumption.
    + intros Hr. rewrite (Hu' p Hr), increment_outside by exact Hp. reflexivity.
    + intros Hr. rewrite (Hv' p Hr), increment_outside by exact Hp. reflexivity.
  - intros He.
    assert (Hz : vbar = 0).
    { subst vbar. unfold disk_velocity. rewrite Hi, He. reflexivity. }
    destruct (Hnil He) as [Hu0 Hv0].
    split; [exact Hz |].
    split; [unfold thrust; rewrite Hz; ring |].
    split; [rewrite Hpow, Hz; ring |].
    split; assumption.
Qed.

(** ** C6: the yaw controller *)

Section Scan.

Variables (val : R) (arr : list R) (s : Z).

Lemma nearest_step_scanned (m : Z) (st : Z * R) :
  (s < m)%Z ->
  scanned val arr s m st ->
  scanned val arr s (m + 1) (Turbine.nearest_step val arr st m).
Proof.
  intros Hsm. destruct st as [idx md]. unfold scanned, nearest_in. simpl.
  intros (Hmd & Hidx & Hmin & Hfirst). subst md.
  destruct (Rlt_dec (Rabs (vget 0 arr m - val)) (Rabs (vget 0 arr idx - val)))
    as [Hlt | Hge].
  - rewrite Rltb_true by exact Hlt. simpl.
    split; [reflexivity |]. split; [lia |]. split.
    + intros k Hk. destruct (Z.eq_dec k m) as [-> |]; [lra |].
      specialize (Hmin k ltac:(lia)). lra.
    + intros k Hk. specialize (Hmin k ltac:(lia)). lra.
  - rewrite Rltb_false by exact Hge. simpl.
    split; [reflexivity |]. split; [lia |]. split.
    + intros k Hk. destruct (Z.eq_dec k m) as [-> |]; [lra |].
      apply Hmin. lia.
    + exact Hfirst.
Qed.

Lemma nearest_fold_scanned (n : nat) :
  forall (a : Z) (st : Z * R),
    (s < a)%Z ->
    scanned val arr s a st ->
    scanned val arr s (a + Z.of_nat n)
      (fold_left (Turbine.nearest_step val arr) (irange a (a + Z.of_nat n)) st).
Proof.
  induction n as [|n IH]; intros a st Ha Hst.
  - rewrite irange_nil by lia. simpl. now rewrite Z.add_0_r.
  - replace (a + Z.of_nat (S n))%Z with (a + 1 + Z.of_nat n)%Z by lia.
    rewrite (irange_cons a) by lia. cbn [fold_left].
    apply IH; [lia |]. now apply nearest_step_scanned.
Qed.

End Scan.

(** The lambda [nearest_index] returns the first index of a non-empty range
    whose entry is closest to the value looked for. *)
Lemma nearest_index_nearest (val : R) (arr : list R) (s e : Z) :
  (s < e)%Z -> nearest_in val arr s e (Turbine.nearest_index val arr s e).
Proof.
  intros Hse. unfold Turbine.nearest_index.
  replace e with (s + 1 + Z.of_nat (Z.to_nat (e - (s + 1))))%Z at 1 2 by lia.
  apply nearest_fold_scanned; [lia |].
  split; [reflexivity |]. simpl. split; [lia |]. split.
  - intros k Hk. replace k with s by lia. lra.
  - intros k Hk. lia.
Qed.

(** C6.  When dynamic yaw is enabled and [time] has reached both the start
    time and the scheduled yaw update, the yaw moves one fifth of the way from
    its old value to atan2(v, u) read at the sampled cell, and the schedule
    advances by the yaw period from its previous value.  On a non-empty
    horizontal grid the sampled cell is, on each horizontal axis separately,
    the first index whose coordinate is closest to the point one diameter
    upstream along the old yaw, taken at the hub level.  When dynamic yaw is
    disabled or the update is not yet due, yaw and schedule stay as they
    were. *)
Theorem yaw_update_rule (gd : Grid_data) (self : Turbine.t) (time : R) (s : Flow) :
  let self' := fst (Turbine.exec gd self time s) in
  let idx := Turbine.upstream_index gd self in
  let xref := Turbine.xpos self - Turbine.diam self * cos (Turbine.yaw self) in
  let yref := Turbine.ypos self - Turbine.diam self * sin (Turbine.yaw self) in
  (Turbine.swdynyaw self = true ->
   Turbine.turbstarttime self <= time ->
   Turbine.next_yaw self <= time ->
     Turbine.yaw self' =
       Turbine.yaw self
       + 0.2 * (atan2 (vget 0 (fld_v s) idx) (vget 0 (fld_u s) idx)
                - Turbine.yaw self) /\
     Turbine.next_yaw self' = Turbine.next_yaw self + Turbine.yawperiod self) /\
  ((Grid.istart gd < Grid.iend gd)%Z -> (Grid.jstart gd < Grid.jend gd)%Z ->
     exists iu ju,
       idx = (iu + ju * Grid.jstride gd
              + Turbine.k_hub self * Grid.kstride gd)%Z /\
       nearest_in xref (Grid.x gd) (Grid.istart gd) (Grid.iend gd) iu /\
       nearest_in yref (Grid.y gd) (Grid.jstart gd) (Grid.jend gd) ju) /\
  (Turbine.swdynyaw self = false \/ time < Turbine.next_yaw self ->
     Turbine.yaw self' = Turbine.yaw self /\
     Turbine.next_yaw self' = Turbine.next_yaw self).
Proof.
  intros self' idx xref yref. split; [| split].
  - intros Hsw Hstart Hdue. subst self'.
    rewrite exec_run, Rltb_false by lra.
    destruct (step_run gd self time s) as (s' & -> & _).
    rewrite update_yaw_run. unfold Turbine.yaw_due, Rgeb.
    rewrite Hsw, Rleb_true by exact Hdue. simpl. fold idx.
    split; [lra | reflexivity].
  - intros Hi Hj.
    exists (Turbine.nearest_index xref (Grid.x gd) (Grid.istart gd) (Grid.iend gd)),
           (Turbine.nearest_index yref (Grid.y gd) (Grid.jstart gd) (Grid.jend gd)).
    split; [reflexivity |].
    split; apply nearest_index_nearest; assumption.
  - intros Hoff. subst self'. rewrite exec_run.
    destruct (Rltb time (Turbine.turbstarttime self)); [split; reflexivity |].
    destruct (step_run gd self time s) as (s' & -> & _).
    rewrite update_yaw_run.
    assert (Hnot : Turbine.yaw_due self time = false).
    { unfold Turbine.yaw_due, Rgeb. destruct Hoff as [-> | Hlt]; [reflexivity |].
      rewrite Rleb_false by lra. apply andb_false_r. }
    rewrite Hnot. split; reflexivity.
Qed.

(** ** C4: which elements a call touches *)

(** C4 (amended).  Every element of the velocity vectors that a call of [exec]
    writes is listed in the footprint, and so is every element it reads,
    except for the two loads of the yaw controller: when the yaw update runs,
    u and v are also read at the sampled upstream cell.  When the update does
    not run, all accesses are to footprint elements. *)
Theorem exec_accesses (gd : Grid_data) (self : Turbine.t) (time : R) (s : Flow) :
  exists tr,
    trace (snd (Turbine.exec gd self time s)) = tr ++ trace s /\
    Forall (fun a =>
              (is_store a = true -> In (access_index a) (Turbine.indices self)) /\
              (In (access_index a) (Turbine.indices self) \/
               (Turbine.yaw_due self time = true /\
                Turbine.turbstarttime self <= time /\
                is_store a = false /\
                access_index a = Turbine.upstream_index gd self))) tr /\
    (Turbine.yaw_due self time = false ->
     Forall (fun a => In (access_index a) (Turbine.indices self)) tr).
Proof.
  rewrite exec_run.
  destruct (Rlt_dec time (Turbine.turbstarttime self)) as [Hlt | Hge].
  - rewrite Rltb_true by exact Hlt. exists []. simpl.
    repeat split; constructor.
  - rewrite Rltb_false by exact Hge.
    destruct (step_run gd self time s) as (s' & -> & _ & _ & _ & _ & _ & tr & Htr & Hall).
    cbn [snd]. rewrite Htr. rewrite update_yaw_run.
    destruct (Turbine.yaw_due self time) eqn:Edue; cbn [snd trace].
    + exists (tr ++ [Load V (Turbine.upstream_index gd self);
                     Load U (Turbine.upstream_index gd self)]).
      split; [now rewrite <- app_assoc |].
      split; [| discriminate].
      apply Forall_app. split.
      * eapply Forall_impl; [| exact Hall]. intros a Ha. split; [intros _ |]; auto.
      * constructor; [| constructor; [| constructor]];
          (split; [simpl; discriminate | right; repeat split; lra]).
    + exists tr. split; [reflexivity |].
      split; [| intros _; exact Hall].
      eapply Forall_impl; [| exact Hall]. intros a Ha. split; [intros _ |]; auto.
Qed.

(** ** C2: the farm step *)

Lemma exec_loop_run (gd : Grid_data) (time : R) (ts : list Turbine.t) :
  forall (acc : R) (s : Flow),
  exists ts' s',
    Windfarm.exec_loop gd time ts acc s =
      ((ts', fold_left Rplus (map Turbine.get_power ts') acc), s') /\
    stepped gd time ts s ts' s'.
Proof.
  induction ts as [|t0 ts IH]; intros acc s.
  - exists [], s. split; [reflexivity | constructor].
  - cbn [Windfarm.exec_loop]. unfold bind at 1.
    destruct (Turbine.exec gd t0 time s) as [t1 s1] eqn:E1.
    destruct (IH (acc + Turbine.get_power t1) s1) as (ts' & s' & Hloop & Hst).
    unfold bind, ret. rewrite Hloop. cbn [fst snd].
    exists (t1 :: ts'), s'. split; [reflexivity |].
    econstructor; eassumption.
Qed.

(** C2.  After [Windfarm::exec] the turbines of the collection are the old
    ones stepped one after the other, in collection order, on the shared flow
    field, and the farm power is 0 + p1 + ... + pn for the powers these
    stepped turbines report; the power the farm held before the call plays no
    part in the result. *)
Theorem farm_power_is_sum (gd : Grid_data) (self : Windfarm.t) (time : R)
    (s : Flow) :
  let self' := fst (Windfarm.exec gd self time s) in
  let s' := snd (Windfarm.exec gd self time s) in
  stepped gd time (Windfarm.turbines self) s (Windfarm.turbines self') s' /\
  Windfarm.get_farm_power self' =
    fold_left Rplus (map Turbine.get_power (Windfarm.turbines self')) 0 /\
  (forall p, Windfarm.exec gd (Windfarm.set_farm_power self p) time s =
             Windfarm.exec gd self time s).
Proof.
  intros self' s'. subst self' s'. unfold Windfarm.exec.
  cbn [Windfarm.turbines Windfarm.farm_power Windfarm.set_farm_power].
  destruct (exec_loop_run gd time (Windfarm.turbines self) 0 s)
    as (ts' & s' & Hloop & Hst).
  unfold bind, ret. rewrite Hloop. cbn [fst snd].
  split; [exact Hst | split; reflexivity].
Qed.

(** ** C3 and C9: the disk footprint *)

Section Footprint.

Variables (gd : Grid_data) (self : Turbine.t).

Lemma cell_step_fold (khub j : Z) (l : list Z) :
  forall st,
    fold_left (Turbine.cell_step gd self khub j) l st =
    (fst st ++ map (flat_index gd khub)
                   (filter (fun c => in_diskb gd self (fst c) (snd c))
                           (map (fun i => (i, j)) l)),
     snd st ++ map (gauss gd self)
                   (filter (fun c => in_diskb gd self (fst c) (snd c))
                           (map (fun i => (i, j)) l))).
Proof.
  induction l as [|i l IH]; intros [idxs ws]; cbn [fold_left map filter fst snd].
  - now rewrite !app_nil_r.
  - rewrite IH. unfold Turbine.cell_step, in_diskb.
    destruct (Rleb (sqrt (Turbine.cell_r2 gd self i j)) (Turbine.radius self));
      cbn [fst snd map]; [| reflexivity].
    rewrite <- !app_assoc. reflexivity.
Qed.

Lemma row_step_fold (khub : Z) (rows : list Z) :
  forall st,
    fold_left (Turbine.row_step gd self khub) rows st =
    (fst st ++ map (flat_index gd khub)
                   (filter (fun c => in_diskb gd self (fst c) (snd c))
                      (flat_map (fun j => map (fun i => (i, j))
                                   (irange (Grid.istart gd) (Grid.iend gd)))
                                rows)),
     snd st ++ map (gauss gd self)
                   (filter (fun c => in_diskb gd self (fst c) (snd c))
                      (flat_map (fun j => map (fun i => (i, j))
                                   (irange (Grid.istart gd) (Grid.iend gd)))
                                rows))).
Proof.
  induction rows as [|j rows IH]; intros st; cbn [fold_left flat_map filter map].
  - rewrite !app_nil_r. now destruct st.
  - rewrite IH. unfold Turbine.row_step. rewrite cell_step_fold.
    cbn [fst snd].
    rewrite filter_app, !map_app, !app_assoc. reflexivity.
Qed.

(** The two vectors [create] fills before normalising. *)
Lemma cover_cells (khub : Z) :
  Turbine.cover gd self khub =
  (map (flat_index gd khub) (disk_cells gd self),
   map (gauss gd self) (disk_cells gd self)).
Proof.
  unfold Turbine.cover. rewrite row_step_fold. reflexivity.
Qed.

Lemma create_sets_footprint :
  Turbine.k_hub (Turbine.create gd self) = Turbine.hub_scan gd (Turbine.hhub self) /\
  Turbine.indices (Turbine.create gd self) =
    map (flat_index gd (Turbine.hub_scan gd (Turbine.hhub self)))
        (disk_cells gd self) /\
  Turbine.weights (Turbine.create gd self) =
    Turbine.normalise (map (gauss gd self) (disk_cells gd self)).
Proof.
  unfold Turbine.create. rewrite cover_cells. simpl. repeat split.
Qed.

Lemma accumulate_scaled (ws : list R) (W : R) :
  forall a, Turbine.accumulate (map (fun w => w / W) ws) (a / W)
            = Turbine.accumulate ws a / W.
Proof.
  unfold Turbine.accumulate.
  induction ws as [|w ws IH]; intros a; simpl; [reflexivity |].
  rewrite <- IH. f_equal. unfold Rdiv. ring.
Qed.

Lemma accumulate_ge (ws : list R) :
  Forall (fun w => 0 < w) ws ->
  forall a, a <= Turbine.accumulate ws a.
Proof.
  unfold Turbine.accumulate.
  induction 1 as [|w ws Hw _ IH]; intros a; simpl; [lra |].
  specialize (IH (a + w)). lra.
Qed.

Lemma accumulate_pos (ws : list R) :
  ws <> [] -> Forall (fun w => 0 < w) ws -> 0 < Turbine.accumulate ws 0.
Proof.
  intros Hne Hall. destruct ws as [|w ws]; [contradiction |].
  inversion Hall as [|? ? Hw Hws]; subst.
  pose proof (accumulate_ge ws Hws (0 + w)) as H.
  unfold Turbine.accumulate in *. simpl. lra.
Qed.

Lemma gauss_pos (cells : list (Z * Z)) :
  Forall (fun w => 0 < w) (map (gauss gd self) cells).
Proof.
  apply Forall_forall. intros w Hw. apply in_map_iff in Hw.
  destruct Hw as (c & <- & _). unfold gauss. apply exp_pos.
Qed.

Lemma grid_cells_In (i j : Z) :
  In (i, j) (grid_cells gd) <->
  (Grid.istart gd <= i < Grid.iend gd)%Z /\ (Grid.jstart gd <= j < Grid.jend gd)%Z.
Proof.
  unfold grid_cells. rewrite in_flat_map. split.
  - intros (j0 & Hj & Hi). apply in_map_iff in Hi.
    destruct Hi as (i0 & Heq & Hi). injection Heq as -> ->.
    apply irange_In in Hj, Hi. tauto.
  - intros [Hi Hj]. exists j. split; [now apply irange_In |].
    apply in_map_iff. exists i. split; [reflexivity | now apply irange_In].
Qed.

Lemma disk_cells_In (i j : Z) :
  In (i, j) (disk_cells gd self) <->
  (Grid.istart gd <= i < Grid.iend gd)%Z /\
  (Grid.jstart gd <= j < Grid.jend gd)%Z /\ in_disk gd self i j.
Proof.
  unfold disk_cells. rewrite filter_In, grid_cells_In. simpl.
  unfold in_diskb, in_disk. rewrite Rleb_iff. tauto.
Qed.

End Footprint.

(** The footprint [create] stores, through the test and the weight as the
    loop computes them. *)
Lemma footprint_as_computed (gd : Grid_data) (self : Turbine.t) :
  let self' := Turbine.create gd self in
  let cells := disk_cells gd self in
  let W := Turbine.accumulate (map (gauss gd self) cells) 0 in
  Turbine.indices self' = map (flat_index gd (Turbine.k_hub self')) cells /\
  (cells <> [] <->
   exists i j, (Grid.istart gd <= i < Grid.iend gd)%Z /\
               (Grid.jstart gd <= j < Grid.jend gd)%Z /\ in_disk gd self i j) /\
  (cells <> [] ->
     0 < W /\
     Turbine.weights self' = map (fun c => gauss gd self c / W) cells /\
     Turbine.accumulate (Turbine.weights self') 0 = 1) /\
  (cells = [] ->
     Turbine.indices self' = [] /\ Turbine.weights self' = [] /\
     snd (Turbine.cover gd self (Turbine.k_hub self')) = [] /\
     Rgtb (Turbine.accumulate [] 0) 0 = false) /\
  (forall gd' time s,
     Turbine.indices (fst (Turbine.exec gd' self' time s)) = Turbine.indices self' /\
     Turbine.weights (fst (Turbine.exec gd' self' time s)) = Turbine.weights self').
Proof.
  intros self' cells W.
  destruct (create_sets_footprint gd self) as (Hk & Hi & Hw).
  fold self' cells in Hk, Hi, Hw.
  split; [rewrite Hk; exact Hi |].
  split.
  { split.
    - intros Hne. destruct cells as [|[i j] rest] eqn:E; [contradiction |].
      exists i, j. apply disk_cells_In. fold cells. rewrite E. left. reflexivity.
    - intros (i & j & Hi' & Hj' & Hd) Hnil.
      assert (Hin : In (i, j) cells) by (apply disk_cells_In; tauto).
      rewrite Hnil in Hin. exact Hin. }
  split; [| split].
  - intros Hne.
    assert (HW : 0 < W).
    { apply accumulate_pos; [| apply gauss_pos].
      intros Hm. apply Hne. now apply map_eq_nil in Hm. }
    assert (Hws : Turbine.weights self' = map (fun c => gauss gd self c / W) cells).
    { rewrite Hw. unfold Turbine.normalise. fold W.
      unfold Rgtb. rewrite Rltb_true by exact HW. now rewrite map_map. }
    split; [exact HW | split; [exact Hws |]].
    rewrite Hw. unfold Turbine.normalise. fold W.
    unfold Rgtb. rewrite Rltb_true by exact HW.
    replace 0 with (0 / W) at 1 by (unfold Rdiv; ring).
    rewrite accumulate_scaled. fold W. field. lra.
  - intros Hnil. rewrite Hi, Hw, Hk, cover_cells. fold cells. rewrite Hnil.
    cbn [map snd]. unfold Turbine.normalise, Turbine.accumulate, Rgtb.
    cbn [fold_left]. rewrite Rltb_false by lra. repeat split.
  - intros gd' time s.
    destruct (exec_static gd' self' time s) as (_ & _ & _ & He1 & He2).
    split; assumption.
Qed.

(** The test and the weight of the loop are those of the specification. *)
Lemma cell_r2_distance2 (gd : Grid_data) (self : Turbine.t) (c : Z * Z) :
  Turbine.cell_r2 gd self (fst c) (snd c) = disk_distance2 gd self c.
Proof. unfold Turbine.cell_r2, disk_distance2. cbv zeta. ring. Qed.

Lemma radius_half_diameter (self : Turbine.t) :
  Turbine.radius self = Turbine.diam self / 2.
Proof. unfold Turbine.radius. lra. Qed.

Lemma in_diskb_within (gd : Grid_data) (self : Turbine.t) (c : Z * Z) :
  in_diskb gd self (fst c) (snd c) = within_rotor_radiusb gd self c.
Proof.
  unfold in_diskb, within_rotor_radiusb.
  now rewrite cell_r2_distance2, radius_half_diameter.
Qed.

Lemma in_disk_within (gd : Grid_data) (self : Turbine.t) (i j : Z) :
  in_disk gd self i j <-> within_rotor_radius gd self (i, j).
Proof.
  unfold in_disk, within_rotor_radius.
  pose proof (cell_r2_distance2 gd self (i, j)) as H. cbn [fst snd] in H.
  now rewrite H, radius_half_diameter.
Qed.

Lemma disk_cells_covered (gd : Grid_data) (self : Turbine.t) :
  disk_cells gd self = covered_cells gd self.
Proof.
  unfold disk_cells, covered_cells. apply filter_ext.
  intros c. apply in_diskb_within.
Qed.

Lemma gauss_gaussian_weight (gd : Grid_data) (self : Turbine.t) (c : Z * Z) :
  gauss gd self c = gaussian_weight gd self c.
Proof.
  unfold gauss, gaussian_weight. cbv zeta. rewrite cell_r2_distance2.
  f_equal. f_equal. ring.
Qed.

Lemma accumulate_sum_list (ws : list R) :
  forall a, Turbine.accumulate ws a = a + sum_list ws.
Proof.
  unfold Turbine.accumulate.
  induction ws as [|w ws IH]; intros a; simpl; [lra |].
  rewrite IH. lra.
Qed.

(** C3.  [create] stores, in scan order, one footprint entry for each grid
    cell (i, j) of the scanned ranges whose centre lies within the rotor
    radius: sqrt((x[i] - xpos)^2 + (y[j] - ypos)^2) <= diam / 2.  When there
    is such a cell, the sum W over those cells of exp(-6 r^2 / Delta^2), with
    r^2 = (x[i] - xpos)^2 + (y[j] - ypos)^2 and Delta = 1.5 dx, is positive,
    each stored weight is its cell's exp(-6 r^2 / Delta^2) divided by W, and
    the stored weights sum to 1.  When there is none, both vectors are empty,
    the accumulated sum is 0 and the guard [wsum > 0] keeps the division from
    running.  No later [exec] changes the footprint. *)
Theorem create_footprint (gd : Grid_data) (self : Turbine.t) :
  let self' := Turbine.create gd self in
  let cells := covered_cells gd self in
  let W := sum_list (map (gaussian_weight gd self) cells) in
  Turbine.indices self' = map (flat_index gd (Turbine.k_hub self')) cells /\
  (forall i j,
     In (i, j) cells <->
     (Grid.istart gd <= i < Grid.iend gd)%Z /\
     (Grid.jstart gd <= j < Grid.jend gd)%Z /\
     sqrt ((vget 0 (Grid.x gd) i - Turbine.xpos self) ^ 2
           + (vget 0 (Grid.y gd) j - Turbine.ypos self) ^ 2)
     <= Turbine.diam self / 2) /\
  (cells <> [] <->
   exists i j, (Grid.istart gd <= i < Grid.iend gd)%Z /\
               (Grid.jstart gd <= j < Grid.jend gd)%Z /\
               within_rotor_radius gd self (i, j)) /\
  (cells <> [] ->
     0 < W /\
     Turbine.weights self' =
       map (fun c =>
              exp (- 6 * ((vget 0 (Grid.x gd) (fst c) - Turbine.xpos self) ^ 2
                          + (vget 0 (Grid.y gd) (snd c) - Turbine.ypos self) ^ 2)
                   / (1.5 * Grid.dx gd) ^ 2)
              / W) cells /\
     sum_list (Turbine.weights self') = 1) /\
  (cells = [] ->
     Turbine.indices self' = [] /\ Turbine.weights self' = [] /\
     snd (Turbine.cover gd self (Turbine.k_hub self')) = [] /\
     Rgtb (Turbine.accumulate [] 0) 0 = false) /\
  (forall gd' time s,
     Turbine.indices (fst (Turbine.exec gd' self' time s)) = Turbine.indices self' /\
     Turbine.weights (fst (Turbine.exec gd' self' time s)) = Turbine.weights self').
Proof.
  intros self' cells W.
  pose proof (footprint_as_computed gd self) as H. cbv zeta in H.
  fold self' in H. rewrite disk_cells_covered in H. fold cells in H.
  assert (HW : Turbine.accumulate (map (gauss gd self) cells) 0 = W).
  { rewrite accumulate_sum_list, Rplus_0_l. unfold W. f_equal.
    apply map_ext. intros c. apply gauss_gaussian_weight. }
  rewrite HW in H.
  destruct H as (Hidx & Hex & Hne & Hnil & Hexec).
  split; [exact Hidx |].
  split.
  { intros i j. unfold cells. rewrite <- disk_cells_covered, disk_cells_In.
    rewrite in_disk_within. unfold within_rotor_radius, disk_distance2.
    cbn [fst snd]. reflexivity. }
  split.
  { rewrite Hex. split; intros (i & j & Hi & Hj & Hd); exists i, j;
      (split; [exact Hi | split; [exact Hj |]]); now apply in_disk_within. }
  split; [| split; [exact Hnil | exact Hexec]].
  intros Hc. destruct (Hne Hc) as (Hpos & Hws & Hsum).
  split; [exact Hpos | split].
  - rewrite Hws. apply map_ext. intros c.
    rewrite gauss_gaussian_weight. reflexivity.
  - rewrite accumulate_sum_list, Rplus_0_l in Hsum. exact Hsum.
Qed.

Lemma filter_length_le {A : Type} (f g : A -> bool) (l : list A) :
  (forall a, In a l -> f a = true -> g a = true) ->
  (length (filter f l) <= length (filter g l))%nat.
Proof.
  induction l as [|a l IH]; intros H; simpl; [lia |].
  assert (IH' : (length (filter f l) <= length (filter g l))%nat)
    by (apply IH; intros; apply H; simpl; auto).
  destruct (f a) eqn:Ef.
  - rewrite (H a (or_introl eq_refl) Ef). simpl. lia.
  - destruct (g a); simpl; lia.
Qed.

(** C9.  On one grid, for two turbines at the same position, the footprint of
    the one with the larger (or equal) diameter has at least as many cells. *)
Theorem footprint_grows_with_diameter (gd : Grid_data) (t1 t2 : Turbine.t) :
  Turbine.xpos t1 = Turbine.xpos t2 ->
  Turbine.ypos t1 = Turbine.ypos t2 ->
  Turbine.diam t1 <= Turbine.diam t2 ->
  (length (Turbine.indices (Turbine.create gd t1)) <=
   length (Turbine.indices (Turbine.create gd t2)))%nat.
Proof.
  intros Hx Hy Hd.
  destruct (create_sets_footprint gd t1) as (_ & -> & _).
  destruct (create_sets_footprint gd t2) as (_ & -> & _).
  rewrite !length_map. unfold disk_cells.
  apply filter_length_le. intros [i j] _. cbn [fst snd].
  unfold in_diskb. rewrite !Rleb_iff.
  unfold Turbine.cell_r2, Turbine.radius. rewrite Hx, Hy. intros H. lra.
Qed.

(** ** The turbine on the four-cell line *)

Lemma create_unfold_cells (gd : Grid_data) (self : Turbine.t) :
  Turbine.create gd self =
  Turbine.set_footprint self
    (Turbine.hub_scan gd (Turbine.hhub self))
    (map (flat_index gd (Turbine.hub_scan gd (Turbine.hhub self)))
         (disk_cells gd self))
    (Turbine.normalise (map (gauss gd self) (disk_cells gd self))).
Proof.
  unfold Turbine.create. now rewrite cover_cells.
Qed.

Lemma sum_squares_nonneg (a b : R) : 0 <= a * a + b * b.
Proof. nra. Qed.

(** The disk test without the square root. *)
Lemma in_diskb_sq (gd : Grid_data) (self : Turbine.t) (i j : Z) :
  0 <= Turbine.radius self ->
  in_diskb gd self i j =
  Rleb (Turbine.cell_r2 gd self i j) (Turbine.radius self * Turbine.radius self).
Proof.
  intros Hr. unfold in_diskb.
  assert (H0 : 0 <= Turbine.cell_r2 gd self i j)
    by (unfold Turbine.cell_r2; cbv zeta; apply sum_squares_nonneg).
  destruct (Rle_dec (Turbine.cell_r2 gd self i j)
                    (Turbine.radius self * Turbine.radius self)) as [Hle | Hgt].
  - rewrite (Rleb_true _ _ Hle). apply Rleb_true.
    rewrite <- (sqrt_square (Turbine.radius self)) by exact Hr.
    now apply sqrt_le_1_alt.
  - rewrite (Rleb_false _ _ Hgt). apply Rleb_false. intros Hs. apply Hgt.
    rewrite <- (sqrt_sqrt _ H0).
    apply Rmult_le_compat; try apply sqrt_pos; exact Hs.
Qed.

Ltac rabs_lra := unfold Rabs; repeat destruct (Rcase_abs _); lra.

(** Settles comparisons between absolute values of closed expressions. *)
Ltac rcompare_abs :=
  repeat match goal with
  | |- context [Rltb ?a ?b] =>
      first [ rewrite (Rltb_true a b) by rabs_lra
            | rewrite (Rltb_false a b) by rabs_lra ]
  end.

Lemma disk_cells_line (dynyaw : bool) (start : R) :
  disk_cells gd_line (Turbine.new (tin_unit dynyaw start) 2.5 0.5 (-1))
  = [(2, 0)%Z].
Proof.
  unfold disk_cells, grid_cells.
  change (irange (Grid.jstart gd_line) (Grid.jend gd_line)) with [0%Z].
  change (irange (Grid.istart gd_line) (Grid.iend gd_line)) with [0; 1; 2; 3]%Z.
  cbn [flat_map map app filter fst snd].
  rewrite !in_diskb_sq by (unfold Turbine.radius; simpl; lra).
  unfold Turbine.cell_r2, Turbine.radius, vget. simpl.
  rcompare. reflexivity.
Qed.

Lemma turb_line_eq (dynyaw : bool) (start : R) :
  turb_line dynyaw start =
  Turbine.set_footprint (Turbine.new (tin_unit dynyaw start) 2.5 0.5 (-1))
    0 [2%Z]
    (Turbine.normalise
       [gauss gd_line (Turbine.new (tin_unit dynyaw start) 2.5 0.5 (-1)) (2, 0)%Z]).
Proof.
  unfold turb_line. rewrite create_unfold_cells, disk_cells_line. reflexivity.
Qed.

Lemma turb_line_reachable (dynyaw : bool) (start : R) :
  reachable gd_line (turb_line dynyaw start).
Proof. apply reach_create, reach_new. Qed.

(** With yaw 0 the yaw controller samples one diameter to the left of the
    turbine: column 1, next to the single footprint cell, column 2. *)
Lemma upstream_index_line (start : R) :
  Turbine.upstream_index gd_line (turb_line true start) = 1%Z.
Proof.
  rewrite turb_line_eq. unfold Turbine.upstream_index.
  cbn [Turbine.xpos Turbine.ypos Turbine.diam Turbine.yaw Turbine.k_hub
       Turbine.set_footprint Turbine.new tin_unit Turbine.in_diam].
  rewrite cos_0, sin_0.
  unfold Turbine.nearest_index.
  change (irange (Grid.istart gd_line + 1) (Grid.iend gd_line)) with [1; 2; 3]%Z.
  change (irange (Grid.jstart gd_line + 1) (Grid.jend gd_line)) with (@nil Z).
  cbn [fold_left fst]. unfold Turbine.nearest_step, vget. simpl.
  rcompare_abs. reflexivity.
Qed.

Lemma turb_line_indices (dynyaw : bool) (start : R) :
  Turbine.indices (turb_line dynyaw start) = [2%Z].
Proof. rewrite turb_line_eq. reflexivity. Qed.

Lemma turb_line_yaw_due (start time : R) :
  start <= time -> Turbine.yaw_due (turb_line true start) time = true.
Proof.
  intros H. rewrite turb_line_eq. unfold Turbine.yaw_due, Rgeb. simpl.
  now apply Rleb_true.
Qed.

Lemma atan2_pos_x (y0 x0 : R) : 0 < x0 -> atan2 y0 x0 = atan (y0 / x0).
Proof. intros H. unfold atan2. now rewrite Rltb_true. Qed.

Lemma normalise_single (w : R) : 0 < w -> Turbine.normalise [w] = [1].
Proof.
  intros H. unfold Turbine.normalise, Turbine.accumulate. cbn [fold_left map].
  unfold Rgtb. rewrite Rltb_true by lra. f_equal. field. lra.
Qed.

Lemma update_yaw_line :
  Turbine.update_yaw gd_line (turb_line true 0) 0 flow_line =
  (Turbine.set_yaw (turb_line true 0) 0 10,
   mkFlow [8; 8; 8; 8] [0; 0; 0; 0] [Load V 1; Load U 1]).
Proof.
  rewrite update_yaw_run, turb_line_yaw_due by lra.
  cbv zeta. rewrite upstream_index_line.
  replace (vget 0 (fld_v flow_line) 1) with 0 by reflexivity.
  replace (vget 0 (fld_u flow_line) 1) with 8 by reflexivity.
  rewrite atan2_pos_x by lra.
  replace (0 / 8) with 0 by lra. rewrite atan_0.
  rewrite turb_line_eq.
  cbn [Turbine.yaw Turbine.next_yaw Turbine.yawperiod Turbine.set_footprint
       Turbine.new tin_unit Turbine.in_turbstarttime Turbine.in_yawperiod].
  replace (0 + (0 - 0) * 0.2) with 0 by lra.
  replace (0 + 10) with 10 by lra.
  reflexivity.
Qed.

Lemma vset_third (a b c d w : R) : vset [a; b; c; d] 2 w = [a; b; w; d].
Proof. reflexivity. Qed.

(** First call on the uniform flow u = 8: the yaw stays 0, the disk average
    is 8, the thrust 24 and the power 32 pi; element 2 of u drops to -16. *)
Example exec_line_example :
  Turbine.exec gd_line (turb_line true 0) 0 flow_line =
  (Turbine.set_power (Turbine.set_yaw (turb_line true 0) 0 10) (32 * PI),
   mkFlow [8; 8; -16; 8] [0; 0; 0; 0]
          [Store V 2; Load V 2; Store U 2; Load U 2;
           Load V 2; Load U 2; Load V 1; Load U 1]).
Proof.
  rewrite exec_run.
  replace (Rltb 0 (Turbine.turbstarttime (turb_line true 0))) with false
    by (rewrite turb_line_eq; simpl; now rewrite Rltb_false by lra).
  unfold Turbine.step. unfold bind at 1. rewrite update_yaw_line.
  rewrite turb_line_eq, normalise_single by (unfold gauss; apply exp_pos).
  cbn [Turbine.indices Turbine.set_yaw Turbine.set_footprint length seq for_each].
  unfold bind, ret, Turbine.mean_body, Turbine.force_body, load, store, bind, ret.
  cbn [fst snd fld fld_u fld_v trace Turbine.indices Turbine.weights Turbine.yaw
       Turbine.set_yaw Turbine.set_footprint Turbine.set_power nth
       Turbine.next_yaw Turbine.get_power Turbine.power].
  unfold Turbine.thrust_of, Turbine.power_of.
  cbn [Turbine.ct Turbine.cp Turbine.area Turbine.set_yaw Turbine.set_footprint
       Turbine.new tin_unit Turbine.in_ct Turbine.in_cp Turbine.in_diam].
  change (vget 0 [8; 8; 8; 8] 2) with 8.
  change (vget 0 [0; 0; 0; 0] 2) with 0.
  rewrite !vset_third.
  rewrite cos_0, sin_0. unfold Turbine.M_PI.
  replace (0 + 1 * (8 * 1 + 0 * 0)) with 8 by lra.
  rewrite (Rabs_right 8) by lra.
  f_equal.
  - f_equal. lra.
  - f_equal; f_equal; f_equal; f_equal; lra.
Qed.

(** C4 as stated fails when the yaw update runs: on the four-cell line the
    footprint of the turbine is the single element 2, yet the first call of
    [exec] with dynamic yaw loads u (and v) at element 1, the cell one
    diameter upstream. *)
Lemma upstream_load_outside_footprint :
  Turbine.indices (turb_line true 0) = [2%Z] /\
  In (Load U 1)
     (trace (snd (Turbine.exec gd_line (turb_line true 0) 0 flow_line))) /\
  ~ Forall (fun a => In (access_index a) (Turbine.indices (turb_line true 0)))
           (trace (snd (Turbine.exec gd_line (turb_line true 0) 0 flow_line))).
Proof.
  assert (Hin : In (Load U 1)
     (trace (snd (Turbine.exec gd_line (turb_line true 0) 0 flow_line)))).
  { rewrite exec_run.
    assert (Hs : Turbine.turbstarttime (turb_line true 0) = 0)
      by (rewrite turb_line_eq; reflexivity).
    rewrite Hs, Rltb_false by lra.
    destruct (step_run gd_line (turb_line true 0) 0 flow_line)
      as (s' & Hstep & _ & _ & _ & _ & _ & tr & Htr & _).
    rewrite Hstep. cbn [snd].
    rewrite Htr, update_yaw_run, turb_line_yaw_due by lra.
    cbn [snd trace]. rewrite upstream_index_line.
    apply in_or_app. right. right. left. reflexivity. }
  split; [apply turb_line_indices | split; [exact Hin |]].
  intros Hall. rewrite Forall_forall in Hall.
  specialize (Hall _ Hin). rewrite turb_line_indices in Hall.
  simpl in Hall. destruct Hall as [H | []]. discriminate.
Qed.

(** The same call: every store goes to the footprint. *)
Lemma exec_accesses_witness :
  exists tr,
    trace (snd (Turbine.exec gd_line (turb_line true 0) 0 flow_line)) = tr /\
    Forall (fun a => is_store a = true ->
                     In (access_index a) (Turbine.indices (turb_line true 0))) tr.
Proof.
  destruct (exec_accesses gd_line (turb_line true 0) 0 flow_line)
    as (tr & Htr & Hall & _).
  exists tr. split.
  - rewrite Htr. simpl. apply app_nil_r.
  - eapply Forall_impl; [| exact Hall]. intros a [H _]. exact H.
Defined.

(** ** Instances on the four-cell line *)

(** A call at the start time on the uniform flow: the yaw kept is the yaw
    after the controller ran. *)
Lemma exec_step_effects_witness :
  Turbine.turbstarttime (turb_line true 0) <= 0 /\
  length (fld_u (snd (Turbine.exec gd_line (turb_line true 0) 0 flow_line)))
  = 4%nat.
Proof.
  assert (Hs : Turbine.turbstarttime (turb_line true 0) <= 0)
    by (rewrite turb_line_eq; simpl; lra).
  split; [exact Hs |].
  apply (exec_step_effects gd_line (turb_line true 0) 0 flow_line
           (turb_line_reachable true 0) Hs).
Defined.

(** A call one time unit before the start time 5 changes nothing. *)
Lemma exec_start_guard_witness :
  Turbine.exec gd_line (turb_line false 5) 4 flow_line
  = (turb_line false 5, flow_line).
Proof.
  apply (exec_start_guard gd_line (turb_line false 5) 4 flow_line).
  rewrite turb_line_eq. simpl. lra.
Defined.

(** First yaw update of the turbine on the line: the schedule moves from 0
    to 0 + 10. *)
Lemma yaw_update_rule_witness :
  Turbine.next_yaw (fst (Turbine.exec gd_line (turb_line true 0) 0 flow_line))
  = Turbine.next_yaw (turb_line true 0) + Turbine.yawperiod (turb_line true 0).
Proof.
  apply (yaw_update_rule gd_line (turb_line true 0) 0 flow_line).
  - rewrite turb_line_eq. reflexivity.
  - rewrite turb_line_eq. simpl. lra.
  - rewrite turb_line_eq. simpl. lra.
Defined.

(** The footprint of the turbine on the line is not empty, so its stored
    weights sum to 1. *)
Lemma create_footprint_witness :
  sum_list (Turbine.weights (turb_line false 0)) = 1.
Proof.
  apply (create_footprint gd_line
           (Turbine.new (tin_unit false 0) 2.5 0.5 (-1))).
  rewrite <- disk_cells_covered, disk_cells_line. discriminate.
Defined.

(** Diameters 1 and 3 at the same place on the line. *)
Lemma footprint_grows_with_diameter_witness :
  (length (Turbine.indices (Turbine.create gd_line
             (Turbine.new (tin_unit false 0) 2.5 0.5 (-1)))) <=
   length (Turbine.indices (Turbine.create gd_line
             (Turbine.new tin_wide 2.5 0.5 (-1)))))%nat.
Proof.
  apply footprint_grows_with_diameter.
  - reflexivity.
  - reflexivity.
  - simpl. lra.
Defined.

(** A farm of two turbines stepped once: the farm power is the sum of the
    two reported powers. *)
Lemma farm_power_is_sum_witness :
  Windfarm.get_farm_power
    (fst (Windfarm.exec gd_line
            (fst (Windfarm.create gd_line no_files (farm_regular 1 2 1.5)))
            0 flow_line))
  = fold_left Rplus
      (map Turbine.get_power
         (Windfarm.turbines
            (fst (Windfarm.exec gd_line
                    (fst (Windfarm.create gd_line no_files (farm_regular 1 2 1.5)))
                    0 flow_line))))
      0.
Proof.
  apply (farm_power_is_sum gd_line
           (fst (Windfarm.create gd_line no_files (farm_regular 1 2 1.5)))
           0 flow_line).
Defined.

(** * Further properties of the turbine and the farm *)

(** ** Hub level *)

Lemma hub_scan_nearest_index (gd : Grid_data) (hh : R) :
  Turbine.hub_scan gd hh =
  Turbine.nearest_index hh (Grid.z gd) (Grid.kstart gd) (Grid.kend gd).
Proof. reflexivity. Qed.

(** X1.  On a grid with at least one level, [create] sets the hub level to
    the first level of [kstart, kend) whose height is closest to the hub
    height of the turbine. *)
Theorem hub_level_nearest (gd : Grid_data) (self : Turbine.t) :
  (Grid.kstart gd < Grid.kend gd)%Z ->
  nearest_in (Turbine.hhub self) (Grid.z gd) (Grid.kstart gd) (Grid.kend gd)
             (Turbine.k_hub (Turbine.create gd self)).
Proof.
  intros Hk. destruct (create_sets_footprint gd self) as (-> & _).
  rewrite hub_scan_nearest_index. now apply nearest_index_nearest.
Qed.

Lemma hub_level_nearest_witness :
  nearest_in (Turbine.hhub (Turbine.new (tin_unit false 0) 2.5 0.5 (-1)))
             (Grid.z gd_line) (Grid.kstart gd_line) (Grid.kend gd_line)
             (Turbine.k_hub (turb_line false 0)).
Proof.
  apply (hub_level_nearest gd_line (Turbine.new (tin_unit false 0) 2.5 0.5 (-1))).
  simpl. lia.
Defined.

(** ** Shape of the footprint *)

Lemma normalise_length (ws : list R) :
  length (Turbine.normalise ws) = length ws.
Proof.
  unfold Turbine.normalise.
  destruct (Rgtb (Turbine.accumulate ws 0) 0); [apply length_map | reflexivity].
Qed.

(** X2.  In every turbine object the program can hold, the index vector and
    the weight vector of the footprint have the same length, so the reads
    [weights[n]] of [exec] for [n < indices.size()] stay inside the vector. *)
Theorem footprint_vectors_same_length (gd : Grid_data) (self : Turbine.t) :
  reachable gd self ->
  length (Turbine.indices self) = length (Turbine.weights self).
Proof.
  induction 1 as [input xin yin hh | self _ IH | self time s _ IH].
  - reflexivity.
  - destruct (create_sets_footprint gd self) as (_ & -> & ->).
    now rewrite normalise_length, !length_map.
  - destruct (exec_static gd self time s) as (_ & _ & _ & -> & ->). exact IH.
Qed.

Lemma footprint_vectors_same_length_witness :
  length (Turbine.indices (turb_line true 0)) =
  length (Turbine.weights (turb_line true 0)).
Proof.
  apply (footprint_vectors_same_length gd_line (turb_line true 0)).
  apply reach_create, reach_new.
Defined.

Lemma accumulate_bounds_entry (ws : list R) (w : R) :
  Forall (fun v => 0 < v) ws -> In w ws ->
  forall a, 0 <= a -> w <= Turbine.accumulate ws a.
Proof.
  unfold Turbine.accumulate.
  induction 1 as [|v ws Hv Hws IH]; intros Hin a Ha; [contradiction |].
  simpl. destruct Hin as [-> | Hin].
  - pose proof (accumulate_ge ws Hws (a + w)) as H.
    unfold Turbine.accumulate in H. lra.
  - apply IH; [exact Hin | lra].
Qed.

(** X3.  On a grid with positive spacing, every weight [create] stores lies
    between 0 and 1. *)
Theorem stored_weights_in_unit_interval (gd : Grid_data) (self : Turbine.t) :
  0 < Grid.dx gd ->
  Forall (fun w => 0 <= w <= 1) (Turbine.weights (Turbine.create gd self)).
Proof.
  intros _.
  destruct (create_sets_footprint gd self) as (_ & _ & ->).
  set (gs := map (gauss gd self) (disk_cells gd self)).
  assert (Hpos : Forall (fun v => 0 < v) gs) by apply gauss_pos.
  destruct gs as [|g0 gs'] eqn:E.
  { unfold Turbine.normalise.
    destruct (Rgtb (Turbine.accumulate [] 0) 0); constructor. }
  assert (HW : 0 < Turbine.accumulate (g0 :: gs') 0)
    by (apply accumulate_pos; [discriminate | exact Hpos]).
  unfold Turbine.normalise, Rgtb. rewrite Rltb_true by exact HW.
  apply Forall_forall. intros w Hw. apply in_map_iff in Hw.
  destruct Hw as (g & <- & Hg).
  assert (Hg0 : 0 < g) by (rewrite Forall_forall in Hpos; now apply Hpos).
  pose proof (accumulate_bounds_entry _ g Hpos Hg 0 (Rle_refl 0)) as Hle.
  split.
  - apply Rlt_le. now apply Rdiv_lt_0_compat.
  - apply (Rmult_le_reg_r (Turbine.accumulate (g0 :: gs') 0)); [exact HW |].
    unfold Rdiv. rewrite Rmult_assoc, Rinv_l by lra. lra.
Qed.

Lemma stored_weights_in_unit_interval_witness :
  Forall (fun w => 0 <= w <= 1) (Turbine.weights (turb_line false 0)).
Proof.
  apply (stored_weights_in_unit_interval gd_line
           (Turbine.new (tin_unit false 0) 2.5 0.5 (-1))).
  simpl. lra.
Defined.

Lemma pairs_NoDup {A B : Type} (rows : list B) (cols : list A) :
  NoDup rows -> NoDup cols ->
  NoDup (flat_map (fun j => map (fun i => (i, j)) cols) rows).
Proof.
  intros Hr Hc. induction Hr as [|j rows Hj Hr IH]; simpl; [constructor |].
  apply NoDup_app.
  - apply NoDup_map_NoDup_ForallPairs; [| exact Hc].
    intros a b _ _ H. now injection H.
  - exact IH.
  - intros [i j0] H1 H2. apply in_map_iff in H1. destruct H1 as (i0 & Heq & _).
    injection Heq as _ <-. apply in_flat_map in H2.
    destruct H2 as (j' & Hj' & Hin). apply in_map_iff in Hin.
    destruct Hin as (i1 & Heq & _). injection Heq as _ <-. contradiction.
Qed.

Lemma irange_NoDup (s e : Z) : NoDup (irange s e).
Proof.
  unfold irange. apply NoDup_map_NoDup_ForallPairs; [| apply seq_NoDup].
  intros a b _ _ H. lia.
Qed.

(** X4.  When a row of the grid is at least as wide as the range of columns
    scanned ([iend - istart <= jstride]), [create] stores no index twice:
    each covered cell is forced once per call. *)
Theorem footprint_indices_distinct (gd : Grid_data) (self : Turbine.t) :
  (Grid.iend gd - Grid.istart gd <= Grid.jstride gd)%Z ->
  NoDup (Turbine.indices (Turbine.create gd self)).
Proof.
  intros Hw. destruct (create_sets_footprint gd self) as (_ & -> & _).
  apply NoDup_map_NoDup_ForallPairs.
  - intros [i j] [i' j'] Hin Hin' Heq.
    apply disk_cells_In in Hin, Hin'.
    destruct Hin as (Hi & _ & _), Hin' as (Hi' & _ & _).
    unfold flat_index in Heq. cbn [fst snd] in Heq.
    assert (j = j') by nia. subst j'.
    f_equal. lia.
  - unfold disk_cells. apply NoDup_filter.
    unfold grid_cells. apply pairs_NoDup; apply irange_NoDup.
Qed.

Lemma footprint_indices_distinct_witness :
  NoDup (Turbine.indices (turb_line true 0)).
Proof.
  apply (footprint_indices_distinct gd_line).
  simpl. lia.
Defined.

(** [create] overwrites the hub level and the footprint without reading
    them: the values they held before do not reach its result. *)
Lemma create_overwrites (gd : Grid_data) (self : Turbine.t) (k : Z)
    (idxs : list Z) (ws : list R) :
  Turbine.create gd (Turbine.set_footprint self k idxs ws) =
  Turbine.create gd self.
Proof.
  rewrite (create_unfold_cells gd (Turbine.set_footprint self k idxs ws)).
  rewrite (create_unfold_cells gd self). reflexivity.
Qed.

(** X5.  [create] may be called again: the footprint depends on the position,
    the diameter and the hub height only, so a second call changes nothing. *)
Theorem turbine_create_idempotent (gd : Grid_data) (self : Turbine.t) :
  Turbine.create gd (Turbine.create gd self) = Turbine.create gd self.
Proof.
  rewrite (create_unfold_cells gd (Turbine.create gd self)).
  rewrite (create_unfold_cells gd self). reflexivity.
Qed.

(** ** Accesses stay inside the array *)

Lemma flat_index_in_array (gd : Grid_data) (i j k : Z) :
  box_in_array gd ->
  (Grid.istart gd <= i < Grid.iend gd)%Z ->
  (Grid.jstart gd <= j < Grid.jend gd)%Z ->
  (0 <= k < Grid.kend gd)%Z ->
  in_array gd (i + j * Grid.jstride gd + k * Grid.kstride gd)%Z.
Proof.
  unfold box_in_array, in_array.
  intros (Hi0 & Hiw & Hj0 & Hjw & Hk0) Hi Hj Hk.
  assert (Hrow : (0 <= i + j * Grid.jstride gd < Grid.kstride gd)%Z) by nia.
  nia.
Qed.

Lemma nearest_index_range (val : R) (arr : list R) (s e : Z) :
  (s < e)%Z -> (s <= Turbine.nearest_index val arr s e < e)%Z.
Proof. intros H. now destruct (nearest_index_nearest val arr s e H). Qed.

(** What holds of the hub level and the footprint once [create] has run. *)
Lemma set_up_in_array (gd : Grid_data) (self : Turbine.t) :
  box_in_array gd ->
  set_up gd self ->
  (0 <= Turbine.k_hub self < Grid.kend gd)%Z /\
  Forall (in_array gd) (Turbine.indices self).
Proof.
  intros Hbox. pose proof Hbox as (Hi0 & Hiw & Hj0 & Hjw & Hk0).
  induction 1 as [self | self time s _ IH].
  - destruct (create_sets_footprint gd self) as (-> & -> & _).
    assert (Hk : (0 <= Turbine.hub_scan gd (Turbine.hhub self) < Grid.kend gd)%Z).
    { rewrite hub_scan_nearest_index.
      pose proof (nearest_index_range (Turbine.hhub self) (Grid.z gd)
                    (Grid.kstart gd) (Grid.kend gd)). lia. }
    split; [exact Hk |].
    apply Forall_forall. intros idx Hin. apply in_map_iff in Hin.
    destruct Hin as ([i j] & <- & Hc). apply disk_cells_In in Hc.
    destruct Hc as (Hi & Hj & _).
    now apply flat_index_in_array.
  - destruct (exec_static gd self time s) as (_ & _ & -> & -> & _). exact IH.
Qed.

(** X6.  On a grid whose scanned index box lies inside the flattened array,
    every element a call of [exec] loads or stores, the upstream sample of
    the yaw controller included, has an index in [0, kend * kstride),
    provided [create] has run on the turbine before. *)
Theorem all_accesses_in_array (gd : Grid_data) (self : Turbine.t) (time : R)
    (s : Flow) :
  box_in_array gd ->
  set_up gd self ->
  exists tr,
    trace (snd (Turbine.exec gd self time s)) = tr ++ trace s /\
    Forall (fun a => in_array gd (access_index a)) tr.
Proof.
  intros Hbox Hset.
  destruct (set_up_in_array gd self Hbox Hset) as [Hk Hidx].
  pose proof Hbox as (Hi0 & Hiw & Hj0 & Hjw & Hk0).
  rewrite exec_run.
  destruct (Rltb time (Turbine.turbstarttime self)).
  - exists []. split; [reflexivity | constructor].
  - destruct (step_run gd self time s)
      as (s' & Hstep & _ & _ & _ & _ & _ & tr & Htr & Hall).
    rewrite Hstep. cbn [snd]. rewrite Htr, update_yaw_run.
    assert (Hfoot : Forall (fun a => in_array gd (access_index a)) tr).
    { eapply Forall_impl; [| exact Hall]. intros a Ha.
      rewrite Forall_forall in Hidx. now apply Hidx. }
    destruct (Turbine.yaw_due self time); cbn [snd trace].
    + exists (tr ++ [Load V (Turbine.upstream_index gd self);
                     Load U (Turbine.upstream_index gd self)]).
      split; [now rewrite <- app_assoc |].
      apply Forall_app. split; [exact Hfoot |].
      assert (Hup : in_array gd (Turbine.upstream_index gd self)).
      { unfold Turbine.upstream_index.
        apply flat_index_in_array; try assumption;
          apply nearest_index_range; lia. }
      constructor; [exact Hup | constructor; [exact Hup | constructor]].
    + exists tr. split; [reflexivity | exact Hfoot].
Qed.

(** The turbine of the line after a first step, stepped again. *)
Lemma all_accesses_in_array_witness :
  exists tr,
    trace (snd (Turbine.exec gd_line
                  (fst (Turbine.exec gd_line (turb_line true 0) 0 flow_line))
                  10 flow_line))
      = tr ++ trace flow_line /\
    Forall (fun a => in_array gd_line (access_index a)) tr.
Proof.
  apply (all_accesses_in_array gd_line
           (fst (Turbine.exec gd_line (turb_line true 0) 0 flow_line))
           10 flow_line).
  - unfold box_in_array. simpl. lia.
  - apply set_up_exec, set_up_create.
Defined.

(** ** The yaw over the life of a turbine *)

Lemma exec_yaw_cases (gd : Grid_data) (self : Turbine.t) (time : R) (s : Flow) :
  let self' := fst (Turbine.exec gd self time s) in
  Turbine.swdynyaw self' = Turbine.swdynyaw self /\
  Turbine.turbstarttime self' = Turbine.turbstarttime self /\
  Turbine.yawperiod self' = Turbine.yawperiod self /\
  ((Turbine.yaw self' = Turbine.yaw self /\
    Turbine.next_yaw self' = Turbine.next_yaw self) \/
   (Turbine.swdynyaw self = true /\
    Turbine.next_yaw self' = Turbine.next_yaw self + Turbine.yawperiod self)).
Proof.
  rewrite exec_run.
  destruct (Rltb time (Turbine.turbstarttime self)).
  { simpl. repeat split. left. split; reflexivity. }
  destruct (step_run gd self time s) as (s' & -> & _).
  rewrite update_yaw_run. unfold Turbine.yaw_due.
  destruct (Turbine.swdynyaw self) eqn:Esw; simpl.
  - destruct (Rgeb time (Turbine.next_yaw self)); simpl;
      (split; [exact Esw | split; [reflexivity | split; [reflexivity |]]]).
    + right. split; reflexivity.
    + left. split; reflexivity.
  - split; [exact Esw | split; [reflexivity | split; [reflexivity |]]].
    left. split; reflexivity.
Qed.

(** X7.  Over the whole life of a turbine the next yaw-update time stays on
    the lattice start time + n * yaw period, whatever the times of the calls;
    a turbine without dynamic yaw keeps yaw 0 and its first schedule. *)
Theorem yaw_schedule_on_lattice (gd : Grid_data) (self : Turbine.t) :
  reachable gd self ->
  (exists n : nat,
     Turbine.next_yaw self =
     Turbine.turbstarttime self + INR n * Turbine.yawperiod self) /\
  (Turbine.swdynyaw self = false ->
     Turbine.yaw self = 0 /\
     Turbine.next_yaw self = Turbine.turbstarttime self).
Proof.
  induction 1 as [input xin yin hh | self _ IH | self time s _ IH].
  - split; [exists O; simpl; lra | intros _; split; reflexivity].
  - rewrite create_unfold_cells. exact IH.
  - destruct (exec_yaw_cases gd self time s) as (Hsw & Hst & Hp & Hcase).
    destruct IH as [[n Hn] Hfix].
    rewrite Hsw, Hst, Hp. split.
    + destruct Hcase as [[_ ->] | [_ ->]].
      * exists n. exact Hn.
      * exists (S n). rewrite Hn, S_INR. lra.
    + intros Hoff. destruct (Hfix Hoff) as [Hy Hs].
      destruct Hcase as [[-> ->] | [Hon _]]; [split; assumption |].
      congruence.
Qed.

Lemma yaw_schedule_on_lattice_witness :
  exists n : nat,
    Turbine.next_yaw (fst (Turbine.exec gd_line (turb_line true 0) 0 flow_line)) =
    Turbine.turbstarttime
      (fst (Turbine.exec gd_line (turb_line true 0) 0 flow_line))
    + INR n * Turbine.yawperiod
                (fst (Turbine.exec gd_line (turb_line true 0) 0 flow_line)).
Proof.
  apply (yaw_schedule_on_lattice gd_line).
  apply reach_exec, reach_create, reach_new.
Defined.

(** ** What a step removes from the flow *)

Lemma vget_of_nat (l : list R) (n : nat) : vget 0 l (Z.of_nat n) = nth n l 0.
Proof.
  unfold vget. destruct (Z.ltb_spec (Z.of_nat n) 0); [lia |].
  now rewrite Nat2Z.id.
Qed.

(** Two vectors of one length that agree on every valid element are equal. *)
Lemma vget_ext (l l' : list R) :
  length l' = length l ->
  (forall p, (0 <= p < Z.of_nat (length l))%Z -> vget 0 l' p = vget 0 l p) ->
  l' = l.
Proof.
  intros Hlen H. apply (nth_ext l' l 0 0 Hlen). intros n Hn.
  rewrite <- !vget_of_nat. apply H. lia.
Qed.

Lemma increment_no_direction (self : Turbine.t) (thrust : R) (p : Z) :
  increment self thrust 0 p = 0.
Proof.
  unfold increment. apply big_sum_zero. intros k _.
  destruct (nth k (Turbine.indices self) 0 =? p)%Z; ring.
Qed.

Lemma reachable_fixed_yaw (gd : Grid_data) (self : Turbine.t) :
  reachable gd self -> Turbine.swdynyaw self = false -> Turbine.yaw self = 0.
Proof.
  induction 1 as [input xin yin hh | self _ IH | self time s _ IH].
  - reflexivity.
  - rewrite create_unfold_cells. exact IH.
  - destruct (exec_yaw_cases gd self time s) as (Hsw & _ & _ & Hcase).
    rewrite Hsw. intros Hoff.
    destruct Hcase as [[-> _] | [Hon _]]; [now apply IH | congruence].
Qed.

(** X8.  A turbine without dynamic yaw always faces along x: no call of
    [exec] changes any element of the v component. *)
Theorem fixed_yaw_leaves_v (gd : Grid_data) (self : Turbine.t) (time : R)
    (s : Flow) :
  reachable gd self ->
  Turbine.swdynyaw self = false ->
  fld_v (snd (Turbine.exec gd self time s)) = fld_v s.
Proof.
  intros Hreach Hoff.
  pose proof (reachable_fixed_yaw gd self Hreach Hoff) as Hyaw.
  rewrite exec_run.
  destruct (Rltb time (Turbine.turbstarttime self)); [reflexivity |].
  destruct (step_run gd self time s)
    as (s' & Hstep & _ & Hlv & _ & Hv & _).
  rewrite Hstep. cbn [snd].
  apply vget_ext; [exact Hlv |]. intros p Hp.
  rewrite (Hv p Hp). rewrite update_yaw_run. unfold Turbine.yaw_due.
  rewrite Hoff. cbn [andb fst]. rewrite Hyaw, sin_0, increment_no_direction.
  ring.
Qed.

Lemma fixed_yaw_leaves_v_witness :
  fld_v (snd (Turbine.exec gd_line (turb_line false 0) 0 flow_line))
  = fld_v flow_line.
Proof.
  apply (fixed_yaw_leaves_v gd_line (turb_line false 0) 0 flow_line).
  - apply reach_create, reach_new.
  - rewrite turb_line_eq. reflexivity.
Defined.

Lemma big_sum_minus (f g : nat -> R) (n : nat) :
  big_sum (fun k => f k - g k) n = big_sum f n - big_sum g n.
Proof. induction n as [|n IH]; simpl; [lra | rewrite IH; lra]. Qed.

Lemma big_sum_plus (f g : nat -> R) (n : nat) :
  big_sum (fun k => f k + g k) n = big_sum f n + big_sum g n.
Proof. induction n as [|n IH]; simpl; [lra | rewrite IH; lra]. Qed.

Lemma big_sum_scal (c d : R) (f : nat -> R) (n : nat) :
  big_sum (fun k => c * f k * d) n = c * big_sum f n * d.
Proof. induction n as [|n IH]; simpl; [ring | rewrite IH; ring]. Qed.

Lemma big_sum_swap (F : nat -> nat -> R) (n m : nat) :
  big_sum (fun p => big_sum (fun k => F k p) n) m =
  big_sum (fun k => big_sum (fun p => F k p) m) n.
Proof.
  induction n as [|n IH]; simpl.
  - apply big_sum_zero. reflexivity.
  - rewrite big_sum_plus, IH. reflexivity.
Qed.

Lemma big_sum_indicator (idx : Z) (g : R) (m : nat) :
  (0 <= idx < Z.of_nat m)%Z ->
  big_sum (fun p => if (idx =? Z.of_nat p)%Z then g else 0) m = g.
Proof.
  intros H. rewrite (big_sum_single _ m (Z.to_nat idx)).
  - destruct (Z.eqb_spec idx (Z.of_nat (Z.to_nat idx))); [reflexivity | lia].
  - lia.
  - intros k _ Hk. destruct (Z.eqb_spec idx (Z.of_nat k)); [lia | reflexivity].
Qed.

Lemma sum_list_big_sum (l : list R) :
  sum_list l = big_sum (fun p => nth p l 0) (length l).
Proof.
  induction l as [|a l IH]; [reflexivity |].
  cbn [length]. rewrite big_sum_shift. simpl. now rewrite IH.
Qed.

Lemma accumulate_big_sum (ws : list R) :
  forall a, Turbine.accumulate ws a =
            a + big_sum (fun n => nth n ws 0) (length ws).
Proof.
  unfold Turbine.accumulate.
  induction ws as [|w ws IH]; intros a; [simpl; lra |].
  cbn [length fold_left]. rewrite IH, big_sum_shift. simpl. lra.
Qed.

(** Total over the vector of the increments of a step. *)
Lemma increment_total (self : Turbine.t) (thrust dir : R) (m : nat) :
  Forall (fun idx => (0 <= idx < Z.of_nat m)%Z) (Turbine.indices self) ->
  length (Turbine.indices self) = length (Turbine.weights self) ->
  big_sum (fun p => increment self thrust dir (Z.of_nat p)) m =
  thrust * Turbine.accumulate (Turbine.weights self) 0 * dir.
Proof.
  intros Hin Hlen. unfold increment.
  rewrite (big_sum_swap
             (fun n p => if (nth n (Turbine.indices self) 0 =? Z.of_nat p)%Z
                         then thrust * nth n (Turbine.weights self) 0 * dir
                         else 0)).
  rewrite (big_sum_ext _ (fun n => thrust * nth n (Turbine.weights self) 0 * dir)).
  - rewrite big_sum_scal, accumulate_big_sum, Hlen. ring.
  - intros n Hn. apply big_sum_indicator.
    rewrite Forall_forall in Hin. apply Hin. now apply nth_In.
Qed.

Lemma sum_list_lowered (l l' : list R) (inc : Z -> R) :
  length l' = length l ->
  (forall p, (0 <= p < Z.of_nat (length l))%Z ->
             vget 0 l' p = vget 0 l p - inc p) ->
  sum_list l' =
  sum_list l - big_sum (fun p => inc (Z.of_nat p)) (length l).
Proof.
  intros Hlen H. rewrite !sum_list_big_sum, Hlen, <- big_sum_minus.
  apply big_sum_ext. intros p Hp. rewrite <- !vget_of_nat. apply H. lia.
Qed.

Lemma normalise_total (ws : list R) :
  ws <> [] -> Forall (fun w => 0 < w) ws ->
  Turbine.accumulate (Turbine.normalise ws) 0 = 1.
Proof.
  intros Hne Hpos. pose proof (accumulate_pos ws Hne Hpos) as HW.
  unfold Turbine.normalise, Rgtb. rewrite Rltb_true by exact HW.
  replace 0 with (0 / Turbine.accumulate ws 0) at 1 by (unfold Rdiv; ring).
  rewrite accumulate_scaled. field. lra.
Qed.

(** The footprint of every turbine object: two vectors of one length whose
    weights, when there are any, sum to 1. *)
Lemma reachable_footprint (gd : Grid_data) (self : Turbine.t) :
  reachable gd self ->
  length (Turbine.indices self) = length (Turbine.weights self) /\
  (Turbine.indices self <> [] ->
   Turbine.accumulate (Turbine.weights self) 0 = 1).
Proof.
  induction 1 as [input xin yin hh | self _ IH | self time s _ IH].
  - split; [reflexivity | intros H; now elim H].
  - destruct (create_sets_footprint gd self) as (_ & -> & ->). split.
    + now rewrite normalise_length, !length_map.
    + intros Hne. apply normalise_total; [| apply gauss_pos].
      intros Hm. apply Hne. apply map_eq_nil in Hm. now rewrite Hm.
  - destruct (exec_static gd self time s) as (_ & _ & _ & -> & ->). exact IH.
Qed.

(** X9.  A step at or after the start time of a turbine whose footprint is
    not empty and points inside both vectors removes from the flow, in total
    over all elements, exactly the thrust split along the yaw: thrust * cos
    yaw from u and thrust * sin yaw from v. *)
Theorem momentum_removed_is_thrust (gd : Grid_data) (self : Turbine.t)
    (time : R) (s : Flow) :
  reachable gd self ->
  Turbine.turbstarttime self <= time ->
  Turbine.indices self <> [] ->
  Forall (fun idx => (0 <= idx < Z.of_nat (length (fld_u s)))%Z)
         (Turbine.indices self) ->
  Forall (fun idx => (0 <= idx < Z.of_nat (length (fld_v s)))%Z)
         (Turbine.indices self) ->
  let self1 := fst (Turbine.update_yaw gd self time s) in
  let yaw1 := Turbine.yaw self1 in
  let vbar := disk_velocity self1 s in
  let thrust := 0.5 * Turbine.ct self * vbar * Rabs vbar in
  let s' := snd (Turbine.exec gd self time s) in
  sum_list (fld_u s') = sum_list (fld_u s) - thrust * cos yaw1 /\
  sum_list (fld_v s') = sum_list (fld_v s) - thrust * sin yaw1.
Proof.
  intros Hreach Hstart Hne Hinu Hinv self1 yaw1 vbar thrust s'.
  destruct (reachable_footprint gd self Hreach) as [Hlen Hone].
  specialize (Hone Hne).
  destruct (update_yaw_frame gd self time s)
    as (Hi & Hw & Hct & _ & _ & _ & _ & _).
  fold self1 in Hi, Hw, Hct.
  destruct (step_run gd self time s)
    as (s2 & Hstep & Hlu & Hlv & Hu & Hv & _).
  fold self1 vbar in Hstep, Hu, Hv.
  assert (Hs' : s' = s2).
  { subst s'. rewrite exec_run, Rltb_false by lra. now rewrite Hstep. }
  assert (Hthr : Turbine.thrust_of self1 vbar = thrust)
    by (unfold Turbine.thrust_of; now rewrite Hct).
  rewrite Hthr in Hu, Hv. rewrite Hs'.
  assert (Htot : forall dir m,
             Forall (fun idx => (0 <= idx < Z.of_nat m)%Z) (Turbine.indices self) ->
             big_sum (fun p => increment self1 thrust dir (Z.of_nat p)) m
             = thrust * dir).
  { intros dir m Hin. rewrite increment_total.
    - rewrite Hw, Hone. ring.
    - now rewrite Hi.
    - now rewrite Hi, Hw. }
  split.
  - rewrite (sum_list_lowered _ _ _ Hlu Hu). now rewrite Htot.
  - rewrite (sum_list_lowered _ _ _ Hlv Hv). now rewrite Htot.
Qed.

Lemma momentum_removed_is_thrust_witness :
  sum_list (fld_u (snd (Turbine.exec gd_line (turb_line false 0) 0 flow_line)))
  = sum_list (fld_u flow_line)
    - 0.5 * Turbine.ct (turb_line false 0)
      * disk_velocity
          (fst (Turbine.update_yaw gd_line (turb_line false 0) 0 flow_line))
          flow_line
      * Rabs (disk_velocity
                (fst (Turbine.update_yaw gd_line (turb_line false 0) 0 flow_line))
                flow_line)
      * cos (Turbine.yaw
               (fst (Turbine.update_yaw gd_line (turb_line false 0) 0 flow_line))).
Proof.
  apply (momentum_removed_is_thrust gd_line (turb_line false 0) 0 flow_line).
  - apply reach_create, reach_new.
  - rewrite turb_line_eq. simpl. lra.
  - rewrite turb_line_indices. discriminate.
  - rewrite turb_line_indices. repeat constructor; simpl; lia.
  - rewrite turb_line_indices. repeat constructor; simpl; lia.
Defined.

(** ** The farm between setup and stepping *)

Lemma exec_loop_skipped (gd : Grid_data) (time : R) (ts : list Turbine.t) :
  Forall (fun t0 => time < Turbine.turbstarttime t0) ts ->
  forall acc s,
    Windfarm.exec_loop gd time ts acc s =
    ((ts, fold_left Rplus (map Turbine.get_power ts) acc), s).
Proof.
  induction 1 as [|t0 ts Ht _ IH]; intros acc s; [reflexivity |].
  cbn [Windfarm.exec_loop]. unfold bind at 1.
  rewrite exec_run, Rltb_true by exact Ht.
  unfold bind, ret. rewrite IH. reflexivity.
Qed.

(** X10.  A farm step at a time before the start time of every turbine
    touches neither the flow field nor any turbine; the farm power it sets is
    the sum of the powers the turbines already reported. *)
Theorem farm_exec_before_start (gd : Grid_data) (self : Windfarm.t) (time : R)
    (s : Flow) :
  Forall (fun t0 => time < Turbine.turbstarttime t0) (Windfarm.turbines self) ->
  Windfarm.exec gd self time s =
  (Windfarm.set_farm_power self
     (fold_left Rplus (map Turbine.get_power (Windfarm.turbines self)) 0),
   s).
Proof.
  intros H. unfold Windfarm.exec.
  cbn [Windfarm.turbines Windfarm.farm_power Windfarm.set_farm_power].
  unfold bind, ret. rewrite (exec_loop_skipped gd time _ H). reflexivity.
Qed.

Lemma farm_exec_before_start_witness :
  Windfarm.exec gd_line
    (Windfarm.set_turbines (farm_regular 1 1 2.5) [turb_line false 5])
    4 flow_line
  = (Windfarm.set_farm_power
       (Windfarm.set_turbines (farm_regular 1 1 2.5) [turb_line false 5])
       (fold_left Rplus (map Turbine.get_power [turb_line false 5]) 0),
     flow_line).
Proof.
  apply (farm_exec_before_start gd_line
           (Windfarm.set_turbines (farm_regular 1 1 2.5) [turb_line false 5])
           4 flow_line).
  simpl. constructor; [| constructor].
  rewrite turb_line_eq. simpl. lra.
Defined.

Lemma create_same_config (gd : Grid_data) (files : Windfarm.Files)
    (self : Windfarm.t) :
  same_config (fst (Windfarm.create gd files self)) self.
Proof.
  rewrite create_unfold.
  assert (Hrun : same_config
            (fst (try_each (candidates files self) (add_cand gd)
                           (Windfarm.set_turbines self []))) self).
  { apply (try_each_preserves (fun s0 => same_config s0 self)).
    - reflexivity.
    - intros c s0 _ Hs0.
      eapply same_config_trans; [apply add_cand_same_config | exact Hs0]. }
  destruct (Windfarm.layoutfile self =? EmptyString)%string; [exact Hrun |].
  destruct (files (Windfarm.layoutfile self)); [exact Hrun | reflexivity].
Qed.

Lemma create_reads_config (gd : Grid_data) (files : Windfarm.Files)
    (a b : Windfarm.t) :
  same_config a b -> Windfarm.create gd files a = Windfarm.create gd files b.
Proof.
  intros H. unfold same_config in H.
  change (Windfarm.create gd files a)
    with ((fun s0 => Windfarm.create gd files s0) (Windfarm.set_turbines a [])).
  change (Windfarm.create gd files b)
    with ((fun s0 => Windfarm.create gd files s0) (Windfarm.set_turbines b [])).
  now rewrite H.
Qed.

(** X11.  Setup can be repeated: [Windfarm::create] first discards the
    collection and reads nothing but the configuration, so creating again
    from the state a first call left (normally or by an exception) gives the
    same state and the same outcome. *)
Theorem farm_create_repeatable (gd : Grid_data) (files : Windfarm.Files)
    (self : Windfarm.t) :
  Windfarm.create gd files (fst (Windfarm.create gd files self)) =
  Windfarm.create gd files self.
Proof.
  apply create_reads_config, create_same_config.
Qed.

(** ** Layout read from a file *)

Lemma make_hub_override (gd : Grid_data) (self : Windfarm.t) (x y hh : R) :
  0 < hh -> Turbine.hhub (make gd self (x, y, hh)) = hh.
Proof.
  intros H. unfold make.
  destruct (create_fields gd (Turbine.new (Windfarm.input self) x y hh))
    as (_ & Hh & _).
  simpl fst; simpl snd. rewrite Hh. unfold Turbine.new; simpl.
  unfold Rgtb. rewrite Rltb_true by lra. reflexivity.
Qed.

(** X12.  In file mode, when the file opens and every position read passes
    the boundary test, [create] ends normally with one turbine per triple, in
    file order; the turbine of a triple (x, y, hh) stands at (x, y) with hub
    height hh when hh > 0 and the configured hub height otherwise. *)
Theorem file_layout_turbines (gd : Grid_data) (files : Windfarm.Files)
    (self : Windfarm.t) (rows : list (R * R * R)) :
  Windfarm.layoutfile self <> EmptyString ->
  files (Windfarm.layoutfile self) = Some rows ->
  Forall (fun c => ~ cand_crosses gd (Windfarm.diam self) c) rows ->
  let r := Windfarm.create gd files self in
  let ts := Windfarm.turbines (fst r) in
  snd r = Done /\
  length ts = length rows /\
  forall n x y hh,
    nth_error rows n = Some (x, y, hh) ->
    exists t0,
      nth_error ts n = Some t0 /\
      Turbine.xpos t0 = x /\ Turbine.ypos t0 = y /\
      (0 < hh -> Turbine.hhub t0 = hh) /\
      (hh <= 0 -> Turbine.hhub t0 = Turbine.in_hhub (Windfarm.input self)).
Proof.
  intros Hmode Hfile Hok r ts.
  assert (Hr : r = (Windfarm.set_turbines self (map (make gd self) rows), Done)).
  { subst r. rewrite create_unfold. unfold candidates.
    destruct (Windfarm.layoutfile self =? EmptyString)%string eqn:E.
    - apply String.eqb_eq in E. contradiction.
    - rewrite Hfile.
      rewrite (add_all_ok gd rows (Windfarm.set_turbines self [])) by exact Hok.
      reflexivity. }
  assert (Hts : ts = map (make gd self) rows) by (subst ts; now rewrite Hr).
  split; [now rewrite Hr | split; [now rewrite Hts, length_map |]].
  intros n x y hh Hn. exists (make gd self (x, y, hh)).
  split; [rewrite Hts; now apply map_nth_error |].
  destruct (make_position gd self (x, y, hh)) as [Hx Hy].
  split; [exact Hx | split; [exact Hy | split]].
  - apply make_hub_override.
  - apply make_default_hub.
Qed.

Lemma file_layout_turbines_witness :
  length (Windfarm.turbines
            (fst (Windfarm.create gd_line two_line_file farm_from_file)))
  = 2%nat.
Proof.
  apply (file_layout_turbines gd_line two_line_file farm_from_file
           [(2.5, 0.5, 80); (1.5, 0.5, -1)]).
  - discriminate.
  - reflexivity.
  - unfold cand_crosses, crosses. repeat constructor; simpl; lra.
Defined.

(** ** Placement of the turbines in the domain *)

Lemma not_crosses_inside (gd : Grid_data) (d x y : R) :
  ~ crosses gd d x y -> inside_domain gd d x y.
Proof. unfold crosses, inside_domain, Rgt. intros H. lra. Qed.

Lemma make_diam (gd : Grid_data) (self : Windfarm.t) (c : R * R * R) :
  Turbine.diam (make gd self c) = Turbine.in_diam (Windfarm.input self).
Proof.
  unfold make.
  destruct (create_fields gd
              (Turbine.new (Windfarm.input self) (fst (fst c)) (snd (fst c)) (snd c)))
    as (Hd & _).
  rewrite Hd. reflexivity.
Qed.

Lemma made_inside (gd : Grid_data) (self : Windfarm.t) (cs : list (R * R * R)) :
  Windfarm.diam self = Turbine.in_diam (Windfarm.input self) ->
  Forall (fun c => ~ cand_crosses gd (Windfarm.diam self) c) cs ->
  Forall (fun t0 => inside_domain gd (Turbine.diam t0)
                                  (Turbine.xpos t0) (Turbine.ypos t0))
         (map (make gd self) cs).
Proof.
  intros Hd Hok. apply Forall_forall. intros t0 Hin.
  apply in_map_iff in Hin. destruct Hin as (c & <- & Hc).
  rewrite Forall_forall in Hok. specialize (Hok c Hc).
  destruct (make_position gd self c) as [-> ->].
  rewrite make_diam, <- Hd. now apply not_crosses_inside.
Qed.

(** X13.  For a farm whose diameter is the configured turbine diameter (as
    the constructor sets it), every turbine in the collection after
    [Windfarm::create], whether the call ended normally or by an exception,
    has its disk inside the horizontal domain: 0 <= x - diam/2,
    x + diam/2 <= xsize, and the same in y. *)
Theorem created_disks_inside_domain (gd : Grid_data) (files : Windfarm.Files)
    (self : Windfarm.t) :
  Windfarm.diam self = Turbine.in_diam (Windfarm.input self) ->
  Forall (fun t0 => inside_domain gd (Turbine.diam t0)
                                  (Turbine.xpos t0) (Turbine.ypos t0))
         (Windfarm.turbines (fst (Windfarm.create gd files self))).
Proof.
  intros Hd.
  assert (Hrun : Forall (fun t0 => inside_domain gd (Turbine.diam t0)
                                     (Turbine.xpos t0) (Turbine.ypos t0))
                   (Windfarm.turbines
                      (fst (try_each (candidates files self) (add_cand gd)
                                     (Windfarm.set_turbines self []))))).
  { destruct (first_crossing gd (Windfarm.diam self) (candidates files self))
      as [Hok | (pre & c & post & Hcs & Hpre & Hc)].
    - rewrite (add_all_ok gd _ (Windfarm.set_turbines self [])) by exact Hok.
      now apply (made_inside gd self).
    - rewrite Hcs.
      rewrite (add_all_fail gd pre post c (Windfarm.set_turbines self []))
        by assumption.
      now apply (made_inside gd self). }
  rewrite create_unfold.
  destruct (Windfarm.layoutfile self =? EmptyString)%string; [exact Hrun |].
  destruct (files (Windfarm.layoutfile self)); [exact Hrun | constructor].
Qed.

Lemma created_disks_inside_domain_witness :
  Forall (fun t0 => inside_domain gd_line (Turbine.diam t0)
                                  (Turbine.xpos t0) (Turbine.ypos t0))
         (Windfarm.turbines
            (fst (Windfarm.create gd_line no_files (farm_regular 1 2 1.5)))).
Proof.
  apply (created_disks_inside_domain gd_line no_files (farm_regular 1 2 1.5)).
  reflexivity.
Defined.

Lemma exec_placement (gd : Grid_data) (self : Turbine.t) (time : R) (s : Flow) :
  let self' := fst (Turbine.exec gd self time s) in
  Turbine.xpos self' = Turbine.xpos self /\
  Turbine.ypos self' = Turbine.ypos self /\
  Turbine.hhub self' = Turbine.hhub self.
Proof.
  rewrite exec_run.
  destruct (Rltb time (Turbine.turbstarttime self)); [simpl; repeat split |].
  destruct (step_run gd self time s) as (s' & -> & _).
  rewrite update_yaw_run.
  destruct (Turbine.yaw_due self time); simpl; repeat split.
Qed.

(** X14.  [Windfarm::exec] neither adds nor removes a turbine and moves none:
    turbine by turbine, position, diameter, hub height, hub level and
    footprint after the call are those before it, so disks that lay inside
    the domain still do. *)
Theorem farm_exec_keeps_layout (gd : Grid_data) (self : Windfarm.t) (time : R)
    (s : Flow) :
  let ts' := Windfarm.turbines (fst (Windfarm.exec gd self time s)) in
  Forall2 (fun t0 t1 =>
             Turbine.xpos t1 = Turbine.xpos t0 /\
             Turbine.ypos t1 = Turbine.ypos t0 /\
             Turbine.diam t1 = Turbine.diam t0 /\
             Turbine.hhub t1 = Turbine.hhub t0 /\
             Turbine.k_hub t1 = Turbine.k_hub t0 /\
             Turbine.indices t1 = Turbine.indices t0 /\
             Turbine.weights t1 = Turbine.weights t0)
          (Windfarm.turbines self) ts' /\
  (Forall (fun t0 => inside_domain gd (Turbine.diam t0)
                                   (Turbine.xpos t0) (Turbine.ypos t0))
          (Windfarm.turbines self) ->
   Forall (fun t0 => inside_domain gd (Turbine.diam t0)
                                   (Turbine.xpos t0) (Turbine.ypos t0)) ts').
Proof.
  intros ts'. subst ts'. unfold Windfarm.exec.
  cbn [Windfarm.turbines Windfarm.farm_power Windfarm.set_farm_power].
  destruct (exec_loop_run gd time (Windfarm.turbines self) 0 s)
    as (ts' & s' & Hloop & Hst).
  unfold bind, ret. rewrite Hloop.
  cbn [fst snd Windfarm.turbines Windfarm.set_farm_power Windfarm.set_turbines].
  clear Hloop.
  induction Hst as [s0 | t0 ts t1 ts1 s0 s1 s2 Hex _ IH].
  - split; [constructor | intros _; constructor].
  - destruct IH as [IH2 IHin].
    destruct (exec_static gd t0 time s0) as (Hd & _ & Hk & Hi & Hw).
    destruct (exec_placement gd t0 time s0) as (Hx & Hy & Hh).
    rewrite Hex in Hd, Hk, Hi, Hw, Hx, Hy, Hh. cbn [fst] in *.
    split.
    + constructor; [repeat split; assumption | exact IH2].
    + intros Hall. inversion Hall as [|? ? Ht0 Hts]; subst.
      constructor; [now rewrite Hd, Hx, Hy | now apply IHin].
Qed.

Lemma farm_exec_keeps_layout_witness :
  Forall (fun t0 => inside_domain gd_line (Turbine.diam t0)
                                  (Turbine.xpos t0) (Turbine.ypos t0))
         (Windfarm.turbines
            (fst (Windfarm.exec gd_line
                    (Windfarm.set_turbines (farm_regular 1 1 2.5)
                                           [turb_line false 0])
                    0 flow_line))).
Proof.
  apply (farm_exec_keeps_layout gd_line
           (Windfarm.set_turbines (farm_regular 1 1 2.5) [turb_line false 0])
           0 flow_line).
  simpl. constructor; [| constructor].
  rewrite turb_line_eq. unfold inside_domain. simpl. lra.
Defined.

(** X15.  The power a step reports is not clamped: for a positive power
    coefficient and a non-zero diameter it has the sign of the disk-averaged
    velocity, so a reversed flow through the disk yields a negative power. *)
Theorem reported_power_sign (gd : Grid_data) (self : Turbine.t) (time : R)
    (s : Flow) :
  reachable gd self ->
  Turbine.turbstarttime self <= time ->
  0 < Turbine.cp self ->
  Turbine.diam self <> 0 ->
  let vbar := disk_velocity (fst (Turbine.update_yaw gd self time s)) s in
  let p := Turbine.get_power (fst (Turbine.exec gd self time s)) in
  (0 < vbar -> 0 < p) /\ (vbar < 0 -> p < 0) /\ (vbar = 0 -> p = 0).
Proof.
  intros Hreach Hstart Hcp Hd vbar p.
  pose proof (reachable_area gd self Hreach) as Harea.
  destruct (update_yaw_frame gd self time s) as (_ & _ & _ & Hc & Ha & _).
  assert (Hp : p = Turbine.cp self * 0.5 * vbar * vbar * vbar
                   * (PI * Turbine.diam self * Turbine.diam self * 0.25)).
  { subst p. rewrite exec_run, Rltb_false by lra.
    destruct (step_run gd self time s) as (s' & -> & _).
    unfold Turbine.get_power. cbn [fst Turbine.power Turbine.set_power].
    unfold Turbine.power_of. fold vbar. now rewrite Hc, Ha, Harea. }
  assert (Hk : 0 < Turbine.cp self * 0.5
                   * (PI * Turbine.diam self * Turbine.diam self * 0.25)).
  { pose proof PI_RGT_0 as Hpi.
    assert (0 < Turbine.diam self * Turbine.diam self) by nra.
    assert (0 < PI * (Turbine.diam self * Turbine.diam self))
      by now apply Rmult_lt_0_compat.
    nra. }
  set (k := Turbine.cp self * 0.5
            * (PI * Turbine.diam self * Turbine.diam self * 0.25)) in *.
  assert (Hpk : p = k * (vbar * vbar * vbar)) by (rewrite Hp; unfold k; ring).
  rewrite Hpk. repeat split; intros Hv.
  - assert (0 < vbar * vbar * vbar) by (assert (0 < vbar * vbar) by nra; nra).
    now apply Rmult_lt_0_compat.
  - assert (vbar * vbar * vbar < 0) by (assert (0 < vbar * vbar) by nra; nra).
    nra.
  - rewrite Hv. ring.
Qed.

Lemma disk_velocity_line :
  disk_velocity (fst (Turbine.update_yaw gd_line (turb_line false 0) 0 flow_line))
                flow_line = 8.
Proof.
  rewrite update_yaw_run.
  replace (Turbine.yaw_due (turb_line false 0) 0) with false
    by (rewrite turb_line_eq; reflexivity).
  cbn [fst]. rewrite turb_line_eq, normalise_single by (unfold gauss; apply exp_pos).
  unfold disk_velocity, disk_term. simpl.
  change (vget 0 [8; 8; 8; 8] 2) with 8.
  change (vget 0 [0; 0; 0; 0] 2) with 0.
  rewrite cos_0, sin_0. lra.
Qed.

Lemma reported_power_sign_witness :
  0 < Turbine.get_power (fst (Turbine.exec gd_line (turb_line false 0) 0 flow_line)).
Proof.
  apply (reported_power_sign gd_line (turb_line false 0) 0 flow_line).
  - apply reach_create, reach_new.
  - rewrite turb_line_eq. simpl. lra.
  - rewrite turb_line_eq. simpl. lra.
  - rewrite turb_line_eq. simpl. lra.
  - rewrite disk_velocity_line. lra.
Defined.

(** ** Two turbines with separate footprints *)

Lemma vget_outside (l l' : list R) (p : Z) (inc : R) :
  length l' = length l ->
  inc = 0 ->
  ((0 <= p < Z.of_nat (length l))%Z -> vget 0 l' p = vget 0 l p - inc) ->
  vget 0 l' p = vget 0 l p.
Proof.
  intros Hl Hz H. subst inc.
  destruct (Z.ltb_spec p 0) as [Hneg | Hpos].
  - unfold vget. destruct (Z.ltb_spec p 0); [reflexivity | lia].
  - destruct (Z.ltb_spec p (Z.of_nat (length l))) as [Hin | Hbig].
    + rewrite H by lia. lra.
    + unfold vget. destruct (Z.ltb_spec p 0); [reflexivity |].
      rewrite !nth_overflow by lia. reflexivity.
Qed.

(** The effect of one call on the two vectors, element by element. *)
Lemma exec_pointwise (gd : Grid_data) (self : Turbine.t) (time : R) (s : Flow) :
  let s' := snd (Turbine.exec gd self time s) in
  length (fld_u s') = length (fld_u s) /\
  length (fld_v s') = length (fld_v s) /\
  (forall p, (0 <= p < Z.of_nat (length (fld_u s)))%Z ->
     vget 0 (fld_u s') p = vget 0 (fld_u s) p - sink gd self time s cos p) /\
  (forall p, (0 <= p < Z.of_nat (length (fld_v s)))%Z ->
     vget 0 (fld_v s') p = vget 0 (fld_v s) p - sink gd self time s sin p) /\
  (forall p, ~ In p (Turbine.indices self) ->
     vget 0 (fld_u s') p = vget 0 (fld_u s) p /\
     vget 0 (fld_v s') p = vget 0 (fld_v s) p).
Proof.
  unfold sink. rewrite exec_run.
  destruct (Rltb time (Turbine.turbstarttime self)).
  - cbn [snd]. repeat split; intros; lra.
  - destruct (step_run gd self time s)
      as (s' & Hstep & Hlu & Hlv & Hu & Hv & _).
    destruct (update_yaw_frame gd self time s) as (Hi & _).
    rewrite Hstep. cbn [snd].
    split; [exact Hlu | split; [exact Hlv |]].
    split; [exact Hu | split; [exact Hv |]].
    intros p Hp. rewrite <- Hi in Hp. split.
    + eapply vget_outside; [exact Hlu | | apply Hu].
      now apply increment_outside.
    + eapply vget_outside; [exact Hlv | | apply Hv].
      now apply increment_outside.
Qed.

Lemma agree_sym (l : list Z) (s s' : Flow) : agree l s s' -> agree l s' s.
Proof. intros H p Hp. destruct (H p Hp). split; congruence. Qed.

Lemma update_yaw_agree (gd : Grid_data) (self : Turbine.t) (time : R)
    (s s' : Flow) :
  agree (reads gd self time) s s' ->
  fst (Turbine.update_yaw gd self time s) =
  fst (Turbine.update_yaw gd self time s').
Proof.
  intros H. rewrite !update_yaw_run. unfold reads in H.
  destruct (Turbine.yaw_due self time); [| reflexivity].
  cbn [fst]. destruct (H (Turbine.upstream_index gd self)) as [Hu Hv].
  - left. reflexivity.
  - now rewrite Hu, Hv.
Qed.

Lemma disk_velocity_agree (self : Turbine.t) (s s' : Flow) :
  agree (Turbine.indices self) s s' ->
  disk_velocity self s = disk_velocity self s'.
Proof.
  intros H. unfold disk_velocity. apply big_sum_ext. intros k Hk.
  unfold disk_term.
  destruct (H (nth k (Turbine.indices self) 0%Z)) as [Hu Hv];
    [now apply nth_In |].
  now rewrite Hu, Hv.
Qed.

Lemma agree_footprint (gd : Grid_data) (self : Turbine.t) (time : R)
    (s s' : Flow) :
  agree (reads gd self time) s s' ->
  agree (Turbine.indices (fst (Turbine.update_yaw gd self time s))) s s'.
Proof.
  intros H p Hp. apply H. unfold reads. apply in_or_app. right.
  destruct (update_yaw_frame gd self time s) as (Hi & _).
  now rewrite <- Hi.
Qed.

(** A call whose reads see the same values reports the same turbine state
    and takes the same amounts. *)
Lemma exec_agree (gd : Grid_data) (self : Turbine.t) (time : R) (s s' : Flow) :
  agree (reads gd self time) s s' ->
  fst (Turbine.exec gd self time s) = fst (Turbine.exec gd self time s') /\
  (forall dir p, sink gd self time s dir p = sink gd self time s' dir p).
Proof.
  intros H.
  pose proof (update_yaw_agree gd self time s s' H) as Hy.
  pose proof (agree_footprint gd self time s s' H) as Hf.
  pose proof (disk_velocity_agree _ s s' Hf) as Hv.
  split.
  - rewrite !exec_run.
    destruct (Rltb time (Turbine.turbstarttime self)); [reflexivity |].
    destruct (step_run gd self time s) as (s1 & -> & _).
    destruct (step_run gd self time s') as (s1' & -> & _).
    cbn [fst]. now rewrite <- Hy, Hv.
  - intros dir p. unfold sink.
    destruct (Rltb time (Turbine.turbstarttime self)); [reflexivity |].
    cbv zeta. now rewrite <- Hy, Hv.
Qed.

Lemma exec_keeps_agree (gd : Grid_data) (self : Turbine.t) (time : R)
    (s : Flow) (l : list Z) :
  (forall p, In p l -> ~ In p (Turbine.indices self)) ->
  agree l s (snd (Turbine.exec gd self time s)).
Proof.
  intros Hsep p Hp.
  destruct (exec_pointwise gd self time s) as (_ & _ & _ & _ & Hout).
  destruct (Hout p (Hsep p Hp)) as [Hu Hv]. split; congruence.
Qed.

(** X16.  Two turbines none of whose reads (footprint, and upstream sample
    when the yaw update runs) falls in the footprint of the other can be
    stepped in either order: both orders report the same two turbine states
    and leave the same u and v. *)
Theorem exec_order_irrelevant (gd : Grid_data) (ta tb : Turbine.t) (time : R)
    (s : Flow) :
  (forall p, In p (reads gd ta time) -> ~ In p (Turbine.indices tb)) ->
  (forall p, In p (reads gd tb time) -> ~ In p (Turbine.indices ta)) ->
  let ra := Turbine.exec gd ta time s in
  let rab := Turbine.exec gd tb time (snd ra) in
  let rb := Turbine.exec gd tb time s in
  let rba := Turbine.exec gd ta time (snd rb) in
  fst ra = fst rba /\ fst rab = fst rb /\
  fld_u (snd rab) = fld_u (snd rba) /\
  fld_v (snd rab) = fld_v (snd rba).
Proof.
  intros Hab Hba ra rab rb rba.
  assert (Ha : agree (reads gd ta time) s (snd rb))
    by (apply exec_keeps_agree; exact Hab).
  assert (Hb : agree (reads gd tb time) s (snd ra))
    by (apply exec_keeps_agree; exact Hba).
  destruct (exec_agree gd ta time s (snd rb) Ha) as [Hfa Hsa].
  destruct (exec_agree gd tb time s (snd ra) Hb) as [Hfb Hsb].
  destruct (exec_pointwise gd ta time s) as (Hlu1 & Hlv1 & Hu1 & Hv1 & _).
  destruct (exec_pointwise gd tb time (snd ra)) as (Hlu2 & Hlv2 & Hu2 & Hv2 & _).
  destruct (exec_pointwise gd tb time s) as (Hlu3 & Hlv3 & Hu3 & Hv3 & _).
  destruct (exec_pointwise gd ta time (snd rb)) as (Hlu4 & Hlv4 & Hu4 & Hv4 & _).
  fold ra in Hlu1, Hlv1, Hu1, Hv1. fold rb in Hlu3, Hlv3, Hu3, Hv3.
  fold rab in Hlu2, Hlv2, Hu2, Hv2. fold rba in Hlu4, Hlv4, Hu4, Hv4.
  split; [exact Hfa | split; [symmetry; exact Hfb |]].
  split.
  - apply vget_ext; [congruence |]. intros p Hp.
    rewrite Hlu4, Hlu3 in Hp.
    rewrite Hu2 by (rewrite Hlu1; exact Hp).
    rewrite Hu1 by exact Hp.
    rewrite Hu4 by (rewrite Hlu3; exact Hp).
    rewrite Hu3 by exact Hp.
    rewrite <- Hsa, <- Hsb. lra.
  - apply vget_ext; [congruence |]. intros p Hp.
    rewrite Hlv4, Hlv3 in Hp.
    rewrite Hv2 by (rewrite Hlv1; exact Hp).
    rewrite Hv1 by exact Hp.
    rewrite Hv4 by (rewrite Hlv3; exact Hp).
    rewrite Hv3 by exact Hp.
    rewrite <- Hsa, <- Hsb. lra.
Qed.

Lemma disk_cells_left :
  disk_cells gd_line (Turbine.new (tin_unit false 0) 0.5 0.5 (-1)) = [(0, 0)%Z].
Proof.
  unfold disk_cells, grid_cells.
  change (irange (Grid.jstart gd_line) (Grid.jend gd_line)) with [0%Z].
  change (irange (Grid.istart gd_line) (Grid.iend gd_line)) with [0; 1; 2; 3]%Z.
  cbn [flat_map map app filter fst snd].
  rewrite !in_diskb_sq by (unfold Turbine.radius; simpl; lra).
  unfold Turbine.cell_r2, Turbine.radius, vget. simpl.
  rcompare. reflexivity.
Qed.

Lemma turb_left_reads (time : R) : reads gd_line turb_left time = [0%Z].
Proof.
  unfold turb_left. rewrite create_unfold_cells, disk_cells_left. reflexivity.
Qed.

Lemma turb_left_indices : Turbine.indices turb_left = [0%Z].
Proof.
  unfold turb_left. rewrite create_unfold_cells, disk_cells_left. reflexivity.
Qed.

Lemma turb_line_reads (time : R) :
  reads gd_line (turb_line false 0) time = [2%Z].
Proof. rewrite turb_line_eq. reflexivity. Qed.

(** The turbines at x = 2.5 and x = 0.5 of the line, footprints {2} and {0}. *)
Lemma exec_order_irrelevant_witness :
  fld_u (snd (Turbine.exec gd_line turb_left 0
                (snd (Turbine.exec gd_line (turb_line false 0) 0 flow_line))))
  = fld_u (snd (Turbine.exec gd_line (turb_line false 0) 0
                  (snd (Turbine.exec gd_line turb_left 0 flow_line)))).
Proof.
  apply (exec_order_irrelevant gd_line (turb_line false 0) turb_left 0 flow_line).
  - intros p Hp. rewrite turb_line_reads in Hp.
    rewrite turb_left_indices. simpl in *. lia.
  - intros p Hp. rewrite turb_left_reads in Hp.
    rewrite turb_line_indices. simpl in *. lia.
Defined.

(** ** Degenerate configurations *)

(** X17.  A turbine with a negative diameter covers no cell: [create] leaves
    both footprint vectors empty. *)
Theorem negative_diameter_empty_footprint (gd : Grid_data) (self : Turbine.t) :
  Turbine.diam self < 0 ->
  Turbine.indices (Turbine.create gd self) = [] /\
  Turbine.weights (Turbine.create gd self) = [].
Proof.
  intros Hd.
  assert (Hnil : disk_cells gd self = []).
  { unfold disk_cells.
    induction (grid_cells gd) as [|c l IH]; [reflexivity |].
    cbn [filter]. unfold in_diskb at 1.
    rewrite Rleb_false; [exact IH |].
    pose proof (sqrt_pos (Turbine.cell_r2 gd self (fst c) (snd c))).
    unfold Turbine.radius. lra. }
  destruct (create_sets_footprint gd self) as (_ & -> & ->).
  rewrite Hnil. cbn [map]. split; [reflexivity |].
  unfold Turbine.normalise.
  destruct (Rgtb (Turbine.accumulate [] 0) 0); reflexivity.
Qed.

Lemma negative_diameter_empty_footprint_witness :
  Turbine.indices
    (Turbine.create gd_line
       (Turbine.mk (-1) 0.5 0.75 0.5 8 false 10 0 false 0
                   2.5 0.5 0 0 0 0 [] [] 0)) = [].
Proof.
  apply negative_diameter_empty_footprint. simpl. lra.
Defined.

(** X18.  In procedural mode (empty layout-file path) [Windfarm::create]
    never consults the file system: its result is the same whatever files
    exist. *)
Theorem procedural_mode_ignores_files (gd : Grid_data)
    (files files' : Windfarm.Files) (self : Windfarm.t) :
  Windfarm.layoutfile self = EmptyString ->
  Windfarm.create gd files self = Windfarm.create gd files' self.
Proof.
  intros H. rewrite !create_unfold. unfold candidates. rewrite H.
  rewrite String.eqb_refl. reflexivity.
Qed.

Lemma procedural_mode_ignores_files_witness :
  Windfarm.create gd_line no_files (farm_regular 1 2 1.5) =
  Windfarm.create gd_line two_line_file (farm_regular 1 2 1.5).
Proof.
  apply procedural_mode_ignores_files. reflexivity.
Defined.
